(** * OpenLR line decoder: geometry helpers, route types and offset trimming

    A shallow embedding of the parts of [openlr_dereferencer] that deal with
    polylines ([maps/wgs84.py]), points on lines and routes
    ([decoding/routes.py]), offset removal and candidate bearings
    ([decoding/path_math.py], [decoding/tools.py]) and the entry of the line
    decoder ([decoding/line_decoding.py]).

    Numbers.  Python floats are idealised as exact rationals ([Q]): rounding,
    infinities and NaN are outside the model.  Float comparison [==] is
    [Qeq_bool], division raises [ZeroDivisionError] on a zero divisor as in
    Python.  The properties proved below are those that do not rest on the
    exactness of the arithmetic.  Where rounding changes what the code
    returns, the loops of [interpolate] and [split_line] are also run on
    binary64 numbers ([Binary64]), to show it.

    Exceptions.  A Python function that may raise returns a [result]. *)

From Stdlib Require Import QArith Qround Qabs Lqa ZArith Lia List String Bool.
From Stdlib Require PrimFloat.
Import ListNotations.

Local Open Scope Q_scope.

(** ** Exceptions and the error monad *)

Inductive exn : Type :=
| LRDecodeError (msg : string)
| ValueError (msg : string)
| ZeroDivisionError
| IndexError
| TypeError.

Inductive result (A : Type) : Type :=
| Ok (a : A)
| Raise (e : exn).

Arguments Ok {A} a.
Arguments Raise {A} e.

Definition bind {A B : Type} (m : result A) (k : A -> result B) : result B :=
  match m with
  | Ok a => k a
  | Raise e => Raise e
  end.

Notation "x <- m ;; k" := (bind m (fun x => k))
  (at level 61, m at next level, right associativity).

(** A [for] loop whose body may raise. *)
Fixpoint for_each {S A : Type} (body : S -> A -> result S) (st : S) (xs : list A)
  : result S :=
  match xs with
  | [] => Ok st
  | x :: rest => st' <- body st x ;; for_each body st' rest
  end.

(** ** Float operations *)

Definition Qlt_bool (x y : Q) : bool := negb (Qle_bool y x).

(** [x / y] on Python floats. *)
Definition fdiv (x y : Q) : result Q :=
  if Qeq_bool y 0 then Raise ZeroDivisionError else Ok (x / y).

(** [x % m] on Python floats: the result takes the sign of [m].  Here it is
    exact, and below [m] in absolute value; Python rounds it, and the
    rounded result can be [m] itself. *)
Definition fmod (x m : Q) : Q := x - m * inject_Z (Qfloor (x / m)).

(** [math.pi], the double closest to pi, as the rational it denotes. *)
Definition pi : Q := 884279719003555 # 281474976710656.

(** [math.degrees] and [math.radians]. *)
Definition degrees (x : Q) : Q := x * (180 / pi).
Definition radians (x : Q) : Q := x * (pi / 180).

(** ** Coordinates and line strings *)

Record Coordinates : Type := mkCoordinates { lon : Q; lat : Q }.

(** Tuple comparison [a == b] on coordinates. *)
Definition coord_eqb (a b : Coordinates) : bool :=
  Qeq_bool (lon a) (lon b) && Qeq_bool (lat a) (lat b).

(** A shapely [LineString] is represented by its coordinate sequence
    ([line.coords]). *)
Definition LineString : Type := list Coordinates.

(** The constructor [LineString(coords)]: shapely accepts no coordinates (the
    empty geometry) or at least two, and rejects a single one. *)
Definition LineString_new (coords : list Coordinates) : result LineString :=
  match coords with
  | [_] => Raise (ValueError "LineStrings must have at least 2 coordinate tuples")
  | _ => Ok coords
  end.

(** [pairwise]: s -> (s0,s1), (s1,s2), (s2,s3), ... *)
Fixpoint pairwise {A : Type} (s : list A) : list (A * A) :=
  match s with
  | a :: (b :: _) as rest => (a, b) :: pairwise rest
  | _ => []
  end.

(** [seq[-1]], raising [IndexError] on the empty sequence. *)
Fixpoint last_item {A : Type} (s : list A) : result A :=
  match s with
  | [] => Raise IndexError
  | [x] => Ok x
  | _ :: rest => last_item rest
  end.

(** [seq[0]], raising [IndexError] on the empty sequence. *)
Definition first_item {A : Type} (s : list A) : result A :=
  match s with
  | [] => Raise IndexError
  | x :: _ => Ok x
  end.

(** ** [maps/wgs84.py]: the WGS84 geo tool

    [distance], [bearing] and [extrapolate] delegate to geographiclib's
    geodesic solver; they are the parameters of this section. *)

Section WGS84GeoTool.

Variable distance : Coordinates -> Coordinates -> Q.
Variable bearing : Coordinates -> Coordinates -> Q.
Variable extrapolate : Coordinates -> Q -> Q -> Coordinates.

(** [line_string_length]: the sum of the segment lengths. *)
Definition line_string_length (line_string : LineString) : Q :=
  fold_left (fun length ab => length + distance (fst ab) (snd ab))
            (pairwise line_string) 0.

(** The [for] loop of [interpolate]; [Some c] when the loop returns [c],
    [None] when it runs to its end. *)
Fixpoint interpolate_loop (segments : list (Coordinates * Coordinates))
         (remaining_distance : Q) : option Coordinates :=
  match segments with
  | [] => None
  | (point1, point2) :: rest =>
      let segment_length := distance point1 point2 in
      if Qeq_bool remaining_distance 0 then Some point1
      else if Qlt_bool remaining_distance segment_length then
        let angle := bearing point1 point2 in
        Some (extrapolate point1 remaining_distance angle)
      else interpolate_loop rest (remaining_distance - segment_length)
  end.

Definition interpolate (path : list Coordinates) (distance_meters : Q)
  : result Coordinates :=
  let segments := pairwise path in
  match interpolate_loop segments distance_meters with
  | Some c => Ok c
  | None => seg <- last_item segments ;; Ok (snd seg)
  end.

(** The loop state of [split_line]. *)
Record split_state : Type := mkSplit {
  first_part : list Coordinates;
  second_part : list Coordinates;
  remaining_offset : Q;
  splitpoint : option Coordinates
}.

Definition split_body (st : split_state) (seg : Coordinates * Coordinates)
  : result split_state :=
  let (point_from, point_to) := seg in
  match splitpoint st with
  | None =>
      let first_part1 := first_part st ++ [point_from] in
      let segment_length := distance point_from point_to in
      if Qlt_bool (remaining_offset st) segment_length then
        sp <- interpolate [point_from; point_to] (remaining_offset st) ;;
        let first_part2 :=
          if negb (coord_eqb sp point_from) then first_part1 ++ [sp]
          else first_part1 in
        Ok (mkSplit first_part2 [sp; point_to]
                    (remaining_offset st - segment_length) (Some sp))
      else
        Ok (mkSplit first_part1 (second_part st)
                    (remaining_offset st - segment_length) None)
  | Some sp =>
      Ok (mkSplit (first_part st) (second_part st ++ [point_to])
                  (remaining_offset st) (Some sp))
  end.

(** [LineString(part) if len(part) > 1 else None] *)
Definition part_or_none (part : list Coordinates) : result (option LineString) :=
  if (1 <? List.length part)%nat then ls <- LineString_new part ;; Ok (Some ls)
  else Ok None.

Definition split_line (line : LineString) (meters_into : Q)
  : result (option LineString * option LineString) :=
  st <- for_each split_body (mkSplit [] [] meters_into None) (pairwise line) ;;
  match splitpoint st with
  | None => Ok (Some line, None)
  | Some _ =>
      first <- part_or_none (first_part st) ;;
      second <- part_or_none (second_part st) ;;
      Ok (first, second)
  end.

(** The loop of [join_lines] over the remaining [lines], with the
    accumulated [coords] and the last coordinate seen. *)
Fixpoint join_loop (lines : list LineString) (coords : list Coordinates)
         (last : option Coordinates) : result (list Coordinates) :=
  match lines with
  | [] => Ok coords
  | cs :: rest =>
      first <- first_item cs ;;
      coords1 <- match last with
                 | None => Ok (coords ++ [first])
                 | Some l =>
                     if negb (coord_eqb first l)
                     then Raise (ValueError "Lines are not connected")
                     else Ok coords
                 end ;;
      l' <- last_item cs ;;
      join_loop rest (coords1 ++ tl cs) (Some l')
  end.

Definition join_lines (lines : list LineString) : result LineString :=
  coords <- join_loop lines [] None ;;
  LineString_new coords.

End WGS84GeoTool.

(** ** [maps/abstract.py]: the interfaces *)

(** The abstract class [GeoTool].  [transform_coordinate] plays no part in the
    functions embedded here. *)
Record GeoTool : Type := mkGeoTool {
  gt_bearing : Coordinates -> Coordinates -> Q;
  gt_distance : Coordinates -> Coordinates -> Q;
  gt_line_string_length : LineString -> Q;
  gt_extrapolate : Coordinates -> Q -> Q -> Coordinates;
  gt_interpolate : list Coordinates -> Q -> result Coordinates;
  gt_split_line : LineString -> Q -> result (option LineString * option LineString);
  gt_join_lines : list LineString -> result LineString
}.

(** The class [WGS84GeoTool] over a geodesic solver. *)
Definition WGS84GeoTool
           (distance : Coordinates -> Coordinates -> Q)
           (bearing : Coordinates -> Coordinates -> Q)
           (extrapolate : Coordinates -> Q -> Q -> Coordinates) : GeoTool :=
  {| gt_bearing := bearing;
     gt_distance := distance;
     gt_line_string_length := line_string_length distance;
     gt_extrapolate := extrapolate;
     gt_interpolate := interpolate distance bearing extrapolate;
     gt_split_line := split_line distance bearing extrapolate;
     gt_join_lines := join_lines |}.

(** The abstract class [Line]: the attributes the decoder reads here.  Line
    ids are hashable values; integers stand for them. *)
Module Line.
Record t : Type := mk {
  line_id : Z;
  geometry : LineString;
  length : Q
}.

(** [Line.coordinates()] *)
Definition coordinates (self : t) : list Coordinates := geometry self.
End Line.

(** [path_length]: length of a path in the map, in meters. *)
Definition path_length (lines : list Line.t) : Q :=
  fold_left (fun acc line => acc + Line.length line) lines 0.

(** ** [decoding/routes.py] *)

Module PointOnLine.
Record t : Type := mk {
  line : Line.t;
  relative_offset : Q
}.

Definition _geometry_length_from_start (self : t) (geo_tool : GeoTool) : Q :=
  let geometry_length := gt_line_string_length geo_tool (Line.geometry (line self)) in
  geometry_length * relative_offset self.

Definition position (self : t) (geo_tool : GeoTool) : result Coordinates :=
  gt_interpolate geo_tool (Line.coordinates (line self))
                 (_geometry_length_from_start self geo_tool).

Definition distance_from_start (self : t) : Q :=
  relative_offset self * Line.length (line self).

Definition distance_to_end (self : t) : Q :=
  (1 - relative_offset self) * Line.length (line self).

Definition split (self : t) (geo_tool : GeoTool)
  : result (option LineString * option LineString) :=
  gt_split_line geo_tool (Line.geometry (line self))
                (_geometry_length_from_start self geo_tool).

Definition from_abs_offset (line : Line.t) (meters_into : Q) : result t :=
  if Qle_bool 0 meters_into then
    r <- fdiv meters_into (Line.length line) ;; Ok (mk line r)
  else
    let negative_meters_into := Line.length line + meters_into in
    r <- fdiv negative_meters_into (Line.length line) ;; Ok (mk line r).
End PointOnLine.

Module Route.
Record t : Type := mk {
  start : PointOnLine.t;
  path_inbetween : list Line.t;
  end_ : PointOnLine.t
}.

(** An argument of a call. *)
Inductive arg : Type :=
| APoint (p : PointOnLine.t)
| ALines (ls : list Line.t)
| AGeoTool (g : GeoTool).

(** Calling the named tuple [Route(...)] with positional arguments: the
    class has the three fields [start], [path_inbetween] and [end]; any
    other number of arguments is a [TypeError]. *)
Definition new (args : list arg) : result t :=
  match args with
  | [APoint s; ALines ls; APoint e] => Ok (mk s ls e)
  | _ => Raise TypeError
  end.

(** The body of the loop of [lines]: append [line] unless it repeats the
    id of the last entry. *)
Definition lines_body (result : list Line.t) (line : Line.t) : list Line.t :=
  match rev result with
  | lst :: _ =>
      if negb (Line.line_id line =? Line.line_id lst)%Z then result ++ [line]
      else result
  | [] => result
  end.

(** The property [lines]: all lines that take part in the route. *)
Definition lines (self : t) : list Line.t :=
  let result := [PointOnLine.line (start self)] in
  let result := fold_left lines_body (path_inbetween self) result in
  let result :=
    match rev result with
    | lst :: _ =>
        if (Line.line_id (PointOnLine.line (end_ self)) =? Line.line_id lst)%Z
        then removelast result else result
    | [] => result
    end in
  result ++ [PointOnLine.line (end_ self)].

Definition absolute_start_offset (self : t) : Q :=
  PointOnLine.distance_from_start (start self).

Definition absolute_end_offset (self : t) : Q :=
  PointOnLine.distance_to_end (end_ self).
End Route.

(** ** Offset removal: [decoding/path_math.py] and [decoding/tools.py] *)

Definition offset_too_large : exn :=
  LRDecodeError "Offset is bigger than line location path".

(** The two [while] loops of [remove_offsets],

      while remaining >= lines[i].length:
          remaining -= lines.pop(i).length
          if not lines: raise LRDecodeError(...)

    with [i = 0] for the positive and [i = -1] for the negative offset.  The
    loop is written over the lines in the order in which it visits them:
    [visit] is [lines] for the first loop and [lines] reversed for the
    second.  It returns the remaining offset and the lines left, in visiting
    order. *)
Fixpoint pop_loop (remaining : Q) (visit : list Line.t) : result (Q * list Line.t) :=
  match visit with
  | [] => Raise IndexError
  | l :: rest =>
      if Qle_bool (Line.length l) remaining then
        let remaining := remaining - Line.length l in
        match rest with
        | [] => Raise offset_too_large
        | _ => pop_loop remaining rest
        end
      else Ok (remaining, visit)
  end.

(** The part the two variants of [remove_offsets] share: both loops, then
    [start_line = lines.pop(0)] and the choice of [end_line].  Returns
    [(remaining_poff, remaining_noff, start_line, lines, end_line)]. *)
Definition trim_lines (path : Route.t) (p_off n_off : Q)
  : result (Q * Q * Line.t * list Line.t * Line.t) :=
  let lines := Route.lines path in
  let remaining_poff := p_off + Route.absolute_start_offset path in
  st1 <- pop_loop remaining_poff lines ;;
  let (remaining_poff, lines) := st1 : Q * list Line.t in
  let remaining_noff := n_off + Route.absolute_end_offset path in
  st2 <- pop_loop remaining_noff (rev lines) ;;
  let (remaining_noff, rev_lines) := st2 : Q * list Line.t in
  let lines := rev rev_lines in
  match lines with
  | [] => Raise IndexError
  | start_line :: lines =>
      match rev lines with
      | end_line :: _ =>
          Ok (remaining_poff, remaining_noff, start_line, removelast lines, end_line)
      | [] =>
          Ok (remaining_poff, remaining_noff, start_line, lines, start_line)
      end
  end.

Module path_math.
(** [remove_offsets(path, p_off, n_off, geo_tool)] *)
Definition remove_offsets (path : Route.t) (p_off n_off : Q) (geo_tool : GeoTool)
  : result Route.t :=
  tr <- trim_lines path p_off n_off ;;
  let '(remaining_poff, remaining_noff, start_line, lines, end_line) := tr in
  s <- PointOnLine.from_abs_offset start_line remaining_poff ;;
  e <- PointOnLine.from_abs_offset end_line (Line.length end_line - remaining_noff) ;;
  Route.new [Route.APoint s; Route.ALines lines; Route.APoint e;
             Route.AGeoTool geo_tool].
End path_math.

Module tools.
(** The legacy [remove_offsets(path, p_off, n_off)] *)
Definition remove_offsets (path : Route.t) (p_off n_off : Q) : result Route.t :=
  tr <- trim_lines path p_off n_off ;;
  let '(remaining_poff, remaining_noff, start_line, lines, end_line) := tr in
  rs <- fdiv remaining_poff (Line.length start_line) ;;
  let s := PointOnLine.mk start_line rs in
  re <- fdiv remaining_noff (Line.length end_line) ;;
  let e := PointOnLine.mk end_line (1 - re) in
  Route.new [Route.APoint s; Route.ALines lines; Route.APoint e].
End tools.

(** ** Candidate bearing: [decoding/path_math.py] *)

(** [openlr.LocationReferencePoint] *)
Record LocationReferencePoint : Type := mkLRP {
  lrp_lon : Q;
  lrp_lat : Q;
  lrp_frc : nat;
  lrp_fow : nat;
  lrp_bear : Q;
  lrp_lfrcnp : nat;
  lrp_dnp : Q
}.

(** The values an attribute access on a [PointOnLine] can yield here: a
    float (a field) or a bound method. *)
Inductive pyobj : Type :=
| PyFloat (x : Q)
| PyBoundMethod (self : PointOnLine.t) (name : string).

(** [obj == x] for a float [x]: a bound method has no equality with
    numbers, so the comparison falls back to identity and is false. *)
Definition eq_float (obj : pyobj) (x : Q) : bool :=
  match obj with
  | PyFloat y => Qeq_bool y x
  | PyBoundMethod _ _ => false
  end.

(** [candidate.position]: the method itself, since it is not called. *)
Definition attr_position (candidate : PointOnLine.t) : pyobj :=
  PyBoundMethod candidate "position".

Definition compute_bearing (lrp : LocationReferencePoint)
           (candidate : PointOnLine.t) (is_last_lrp : bool) (bear_dist : Q)
           (geo_tool : GeoTool) : result Q :=
  if (negb is_last_lrp && eq_float (attr_position candidate) 1)
     || (is_last_lrp && eq_float (attr_position candidate) 0)
  then Ok 0
  else
    let coordinates := Line.coordinates (PointOnLine.line candidate) in
    origin <- gt_interpolate geo_tool coordinates
                             (PointOnLine.distance_from_start candidate) ;;
    bearing_point <-
      (if (List.length coordinates =? 2)%nat then
         if is_last_lrp then first_item coordinates else last_item coordinates
       else if is_last_lrp then
         gt_interpolate geo_tool coordinates
                        (PointOnLine.distance_from_start candidate - bear_dist)
       else
         gt_interpolate geo_tool coordinates
                        (PointOnLine.distance_from_start candidate + bear_dist)) ;;
    let bear := gt_bearing geo_tool origin bearing_point in
    Ok (fmod (degrees bear) 360).

(** ** The line decoder: [decoding/line_decoding.py]

    [nominate_candidates], [match_tail] and [build_line_location] live in
    modules outside this development and are parameters, as are the map
    reader, the configuration and the observer they receive. *)

(** [openlr.LineLocationReference] *)
Record LineLocationReference : Type := mkReference {
  points : list LocationReferencePoint;
  poffs : Q;
  noffs : Q
}.

Section LineDecoding.

Variables MapReader Config DecoderObserver Candidate LineLocation : Type.

(** [str(lrp)], as interpolated into the error message. *)
Variable lrp_str : LocationReferencePoint -> string.

Variable nominate_candidates :
  LocationReferencePoint -> MapReader -> Config -> option DecoderObserver ->
  bool -> GeoTool -> result (list Candidate).

Variable match_tail :
  LocationReferencePoint -> list Candidate -> list LocationReferencePoint ->
  MapReader -> Config -> option DecoderObserver -> GeoTool ->
  result (list Route.t).

Variable build_line_location :
  list Route.t -> LineLocationReference -> GeoTool -> result LineLocation.

Definition no_candidates (first_lrp : LocationReferencePoint) : exn :=
  LRDecodeError ("No candidates found for first LRP " ++ lrp_str first_lrp).

Definition dereference_path (lrps : list LocationReferencePoint)
           (reader : MapReader) (config : Config)
           (observer : option DecoderObserver) (geo_tool : GeoTool)
  : result (list Route.t) :=
  first_lrp <- first_item lrps ;;
  first_candidates <-
    nominate_candidates first_lrp reader config observer false geo_tool ;;
  match first_candidates with
  | [] => Raise (no_candidates first_lrp)
  | _ =>
      match_tail first_lrp first_candidates (tl lrps) reader config observer
                 geo_tool
  end.

Definition decode_line (reference : LineLocationReference)
           (reader : MapReader) (config : Config)
           (observer : option DecoderObserver) (geo_tool : GeoTool)
  : result LineLocation :=
  parts <- dereference_path (points reference) reader config observer geo_tool ;;
  build_line_location parts reference geo_tool.

End LineDecoding.

Arguments dereference_path {MapReader Config DecoderObserver Candidate}
  lrp_str nominate_candidates match_tail lrps reader config observer geo_tool.
Arguments decode_line {MapReader Config DecoderObserver Candidate LineLocation}
  lrp_str nominate_candidates match_tail build_line_location
  reference reader config observer geo_tool.

(** ** A geo tool for a flat map

    [GeoTool] is meant to be specialised for the target map.  On this one the
    coordinates are metres on a plane and the roads run along the axes, so
    that distances, bearings and extrapolated points are exact: north is
    bearing 0, east pi/2, south pi, west -pi/2. *)

Module Grid.
Definition distance (a b : Coordinates) : Q :=
  Qabs (lon b - lon a) + Qabs (lat b - lat a).

Definition bearing (a b : Coordinates) : Q :=
  if Qlt_bool (lat a) (lat b) then 0
  else if Qlt_bool (lat b) (lat a) then pi
  else if Qlt_bool (lon a) (lon b) then pi / 2
  else if Qlt_bool (lon b) (lon a) then - (pi / 2)
  else 0.

Definition extrapolate (point : Coordinates) (dist angle : Q) : Coordinates :=
  if Qeq_bool angle 0 then mkCoordinates (lon point) (lat point + dist)
  else if Qeq_bool angle pi then mkCoordinates (lon point) (lat point - dist)
  else if Qeq_bool angle (pi / 2) then mkCoordinates (lon point + dist) (lat point)
  else mkCoordinates (lon point - dist) (lat point).

Definition tool : GeoTool := WGS84GeoTool distance bearing extrapolate.
End Grid.

(** A north-bound road of 200 m with a vertex in the middle, and a straight
    one of 100 m. *)
Definition pt (x y : Q) : Coordinates := mkCoordinates x y.
Definition road_a : Line.t := Line.mk 1 [pt 0 0; pt 0 100; pt 0 200] 200.
Definition road_b : Line.t := Line.mk 2 [pt 0 200; pt 0 300] 100.

(** A line of length 0: both its nodes lie at the same place. *)
Definition road_z : Line.t := Line.mk 3 [pt 0 300; pt 0 300] 0.

(** The route over both roads, from the start of the first to the end of the
    second, and an LRP at the start of the first. *)
Definition route_ab : Route.t :=
  Route.mk (PointOnLine.mk road_a 0) [] (PointOnLine.mk road_b 1).
Definition lrp_a : LocationReferencePoint := mkLRP 0 0 0 0 0 0 300.

(** ** [interpolate] and [split_line] over any arithmetic

    The two loops of [maps/wgs84.py] once more, with the numbers [F], the
    coordinates [C] and the operations on them as parameters.  At the
    rationals they are the definitions above; at binary64 they compute what
    the Python code computes. *)

Section OverArithmetic.

Variables F C : Type.
Variable zero : F.
Variables add sub : F -> F -> F.
Variables eqb ltb : F -> F -> bool.
Variable coord_eq : C -> C -> bool.
Variable distance : C -> C -> F.
Variable bearing : C -> C -> F.
Variable extrapolate : C -> F -> F -> C.

Definition line_string_length_over (line_string : list C) : F :=
  fold_left (fun length ab => add length (distance (fst ab) (snd ab)))
            (pairwise line_string) zero.

Fixpoint interpolate_loop_over (segments : list (C * C)) (remaining_distance : F)
  : option C :=
  match segments with
  | [] => None
  | (point1, point2) :: rest =>
      let segment_length := distance point1 point2 in
      if eqb remaining_distance zero then Some point1
      else if ltb remaining_distance segment_length then
        let angle := bearing point1 point2 in
        Some (extrapolate point1 remaining_distance angle)
      else interpolate_loop_over rest (sub remaining_distance segment_length)
  end.

Definition interpolate_over (path : list C) (distance_meters : F) : result C :=
  let segments := pairwise path in
  match interpolate_loop_over segments distance_meters with
  | Some c => Ok c
  | None => seg <- last_item segments ;; Ok (snd seg)
  end.

Record split_state_over : Type := mkSplitOver {
  first_part_over : list C;
  second_part_over : list C;
  remaining_offset_over : F;
  splitpoint_over : option C
}.

Definition split_body_over (st : split_state_over) (seg : C * C)
  : result split_state_over :=
  let (point_from, point_to) := seg in
  match splitpoint_over st with
  | None =>
      let first_part1 := first_part_over st ++ [point_from] in
      let segment_length := distance point_from point_to in
      if ltb (remaining_offset_over st) segment_length then
        sp <- interpolate_over [point_from; point_to] (remaining_offset_over st) ;;
        let first_part2 :=
          if negb (coord_eq sp point_from) then first_part1 ++ [sp]
          else first_part1 in
        Ok (mkSplitOver first_part2 [sp; point_to]
                        (sub (remaining_offset_over st) segment_length) (Some sp))
      else
        Ok (mkSplitOver first_part1 (second_part_over st)
                        (sub (remaining_offset_over st) segment_length) None)
  | Some sp =>
      Ok (mkSplitOver (first_part_over st) (second_part_over st ++ [point_to])
                      (remaining_offset_over st) (Some sp))
  end.

(** [LineString(part) if len(part) > 1 else None]; the constructor accepts
    every part of more than one coordinate. *)
Definition part_or_none_over (part : list C) : option (list C) :=
  if (1 <? List.length part)%nat then Some part else None.

Definition split_line_over (line : list C) (meters_into : F)
  : result (option (list C) * option (list C)) :=
  st <- for_each split_body_over (mkSplitOver [] [] meters_into None)
                 (pairwise line) ;;
  match splitpoint_over st with
  | None => Ok (Some line, None)
  | Some _ =>
      Ok (part_or_none_over (first_part_over st),
          part_or_none_over (second_part_over st))
  end.

End OverArithmetic.

Arguments first_part_over {F C} s.
Arguments second_part_over {F C} s.
Arguments remaining_offset_over {F C} s.
Arguments splitpoint_over {F C} s.

(** ** The loops on binary64 numbers

    Python's floats, as Rocq's primitive floats; the geo tool is the one of
    the flat map, on binary64 coordinates. *)

Module Binary64.
Import PrimFloat.

Record Coordinates : Type := mkCoordinates { lon : float; lat : float }.

Definition coord_eqb (a b : Coordinates) : bool :=
  eqb (lon a) (lon b) && eqb (lat a) (lat b).

(** [math.pi] *)
Definition pi : float := 0x1.921fb54442d18p+1%float.

Definition distance (a b : Coordinates) : float :=
  add (abs (sub (lon b) (lon a))) (abs (sub (lat b) (lat a))).

Definition bearing (a b : Coordinates) : float :=
  if ltb (lat a) (lat b) then zero
  else if ltb (lat b) (lat a) then pi
  else if ltb (lon a) (lon b) then div pi two
  else if ltb (lon b) (lon a) then opp (div pi two)
  else zero.

Definition extrapolate (point : Coordinates) (dist angle : float) : Coordinates :=
  if eqb angle zero then mkCoordinates (lon point) (add (lat point) dist)
  else if eqb angle pi then mkCoordinates (lon point) (sub (lat point) dist)
  else if eqb angle (div pi two) then mkCoordinates (add (lon point) dist) (lat point)
  else mkCoordinates (sub (lon point) dist) (lat point).

Definition line_string_length : list Coordinates -> float :=
  line_string_length_over float Coordinates zero add distance.

Definition interpolate : list Coordinates -> float -> result Coordinates :=
  interpolate_over float Coordinates zero sub eqb ltb distance bearing extrapolate.

Definition split_line : list Coordinates -> float ->
                        result (option (list Coordinates) * option (list Coordinates)) :=
  split_line_over float Coordinates zero sub eqb ltb coord_eqb
                  distance bearing extrapolate.

Definition pt (x y : float) : Coordinates := mkCoordinates x y.

(** A road of 10.4 m to the north, 11 m to the east and 10.4 m back to the
    south, and one with 10.1 m in place of 10.4 m. *)
Definition road_c : list Coordinates :=
  [pt 0 0; pt 0 0x1.4cccccccccccdp+3; pt 11 0x1.4cccccccccccdp+3; pt 11 0]%float.
Definition road_d : list Coordinates :=
  [pt 0 0; pt 0 0x1.4333333333333p+3; pt 11 0x1.4333333333333p+3; pt 11 0]%float.

(** The offsets 31.8 and 31.2. *)
Definition offset_c : float := 0x1.fcccccccccccdp+4%float.
Definition offset_d : float := 0x1.f333333333333p+4%float.

(** The end of both roads, and the point 2^-49 m before it on the last
    segment. *)
Definition road_end : Coordinates := pt 11 0.
Definition before_road_end : Coordinates := pt 11 0x1p-49.
End Binary64.

(** ** [decoding/routes.py]: length of a route *)

(** [Route.length]: length of the line location part in meters. *)
Definition Route_length (self : Route.t) : Q :=
  let lines := Route.lines self in
  let result := path_length lines in
  let result :=
    if Qlt_bool 0 (PointOnLine.relative_offset (Route.start self))
    then result - PointOnLine.distance_from_start (Route.start self)
    else result in
  if Qlt_bool (PointOnLine.relative_offset (Route.end_ self)) 1
  then result - PointOnLine.distance_to_end (Route.end_ self)
  else result.

(** ** Notions used to state the properties *)

(** The length of a list of segments, summed from the right. *)
Fixpoint segments_length (distance : Coordinates -> Coordinates -> Q)
         (segments : list (Coordinates * Coordinates)) : Q :=
  match segments with
  | [] => 0
  | (a, b) :: rest => distance a b + segments_length distance rest
  end.

(** Offset trimming as the design describes it: [pops r ls r' ls'] when,
    starting with the offset [r] and the lines [ls], popping the first line
    and subtracting its length while the offset is at least that length ends
    with the offset [r'] and the lines [ls'] (none when every line was
    popped). *)
Inductive pops : Q -> list Line.t -> Q -> list Line.t -> Prop :=
| pops_done r : pops r [] r []
| pops_stop r l ls : r < Line.length l -> pops r (l :: ls) r (l :: ls)
| pops_pop r l ls r' ls' :
    Line.length l <= r -> pops (r - Line.length l) ls r' ls' ->
    pops r (l :: ls) r' ls'.

(** The popping empties the line list: at the head for the positive offset,
    or, on the lines that survive it, from the tail for the negative one. *)
Definition popping_empties (path : Route.t) (p_off n_off : Q) : Prop :=
  let p := p_off + Route.absolute_start_offset path in
  let n := n_off + Route.absolute_end_offset path in
  (exists r, pops p (Route.lines path) r [])
  \/ (exists rp front r, pops p (Route.lines path) rp front /\ front <> []
                         /\ pops n (rev front) r []).

Definition not_connected : exn := ValueError "Lines are not connected".

(** Two consecutive polylines are connected when the second starts where the
    first ends, in the sense of [==] on coordinates. *)
Definition connected (a b : LineString) : bool :=
  match last_item a, first_item b with
  | Ok l, Ok f => coord_eqb f l
  | _, _ => false
  end.

(** The concatenation of connected polylines: the first one, then each other
    one without its first vertex. *)
Definition chain (lines : list LineString) : list Coordinates :=
  match lines with
  | [] => []
  | l :: rest => l ++ List.concat (map (@tl Coordinates) rest)
  end.

(** No two neighbours in a list of lines have the same id. *)
Fixpoint collapsed (lines : list Line.t) : Prop :=
  match lines with
  | a :: (b :: _) as rest => Line.line_id a <> Line.line_id b /\ collapsed rest
  | _ => True
  end.

(** The offset that remains after the loop of [split_line], or of
    [interpolate], has passed the segments [segments]: their lengths are
    subtracted from the offset one at a time, in order, as the loop does. *)
Definition remaining_after (distance : Coordinates -> Coordinates -> Q)
           (segments : list (Coordinates * Coordinates)) (offset : Q) : Q :=
  fold_left (fun r ab => r - distance (fst ab) (snd ab)) segments offset.

(** The loop of [split_line] passes all of [segments]: at each of them the
    offset that remains is at least the length of the segment. *)
Fixpoint passes (distance : Coordinates -> Coordinates -> Q)
         (segments : list (Coordinates * Coordinates)) (r : Q) : Prop :=
  match segments with
  | [] => True
  | (a, b) :: rest => distance a b <= r /\ passes distance rest (r - distance a b)
  end.

(** The loop of [interpolate] walks past all of [segments]: at each of them
    the distance that remains is not 0 and at least the length of the
    segment. *)
Fixpoint walks_past (distance : Coordinates -> Coordinates -> Q)
         (segments : list (Coordinates * Coordinates)) (r : Q) : Prop :=
  match segments with
  | [] => True
  | (a, b) :: rest =>
      ~ r == 0 /\ distance a b <= r /\ walks_past distance rest (r - distance a b)
  end.

(** The split point in the segment from [p] to [q] at the remaining offset
    [r]: [p] itself for the offset 0, otherwise the point extrapolated from
    [p] by [r] in the direction of [q]. *)
Definition split_point (bearing : Coordinates -> Coordinates -> Q)
           (extrapolate : Coordinates -> Q -> Q -> Coordinates)
           (p q : Coordinates) (r : Q) : Coordinates :=
  if Qeq_bool r 0 then p else extrapolate p r (bearing p q).

(** The state of the loop of [split_line] as a state of the loop over any
    arithmetic. *)
Definition to_over (st : split_state) : split_state_over Q Coordinates :=
  mkSplitOver Q Coordinates (first_part st) (second_part st)
              (remaining_offset st) (splitpoint st).

(** * Properties *)

(** ** Comparisons and sequences *)

Lemma Qlt_bool_true (x y : Q) : Qlt_bool x y = true <-> x < y.
Proof.
  unfold Qlt_bool. rewrite negb_true_iff. split; intro H.
  - apply Qnot_le_lt. intro Hle. apply Qle_bool_iff in Hle. congruence.
  - destruct (Qle_bool y x) eqn:E; [|reflexivity].
    apply Qle_bool_iff in E. lra.
Qed.

Lemma Qlt_bool_false (x y : Q) : Qlt_bool x y = false <-> y <= x.
Proof.
  unfold Qlt_bool. rewrite negb_false_iff. apply Qle_bool_iff.
Qed.

Lemma Qle_bool_false (x y : Q) : Qle_bool x y = false <-> y < x.
Proof.
  split; intro H.
  - apply Qnot_le_lt. intro Hle. apply Qle_bool_iff in Hle. congruence.
  - destruct (Qle_bool x y) eqn:E; [|reflexivity].
    apply Qle_bool_iff in E. lra.
Qed.

Lemma Qeq_bool_false (x y : Q) : Qeq_bool x y = false <-> ~ x == y.
Proof.
  split; intro H.
  - intro E. apply Qeq_bool_iff in E. congruence.
  - destruct (Qeq_bool x y) eqn:E; [|reflexivity].
    apply Qeq_bool_iff in E. contradiction.
Qed.

Lemma coord_eqb_refl (a : Coordinates) : coord_eqb a a = true.
Proof.
  unfold coord_eqb. rewrite !Qeq_bool_refl. reflexivity.
Qed.

Lemma last_item_app {A : Type} (l : list A) (x : A) : last_item (l ++ [x]) = Ok x.
Proof.
  induction l as [|a l IH]; [reflexivity|].
  simpl. destruct (l ++ [x]) eqn:E; [destruct l; discriminate|exact IH].
Qed.

Lemma last_item_cons {A : Type} (a b : A) (l : list A) :
  last_item (a :: b :: l) = last_item (b :: l).
Proof. reflexivity. Qed.

Lemma last_item_some {A : Type} (a : A) (l : list A) :
  exists x, last_item (a :: l) = Ok x.
Proof.
  revert a. induction l as [|b l IH]; intro a.
  - exists a. reflexivity.
  - rewrite last_item_cons. apply IH.
Qed.

(** The last segment of a path ends in the last vertex of the path. *)
Lemma last_item_pairwise {A : Type} (a b : A) (l : list A) :
  exists seg, last_item (pairwise (a :: b :: l)) = Ok seg
              /\ last_item (a :: b :: l) = Ok (snd seg).
Proof.
  revert a b. induction l as [|c l IH]; intros a b.
  - exists (a, b). split; reflexivity.
  - destruct (IH b c) as [seg [H1 H2]]. exists seg. split.
    + change (pairwise (a :: b :: c :: l)) with ((a, b) :: pairwise (b :: c :: l)).
      change (pairwise (b :: c :: l)) with ((b, c) :: pairwise (c :: l)) in *.
      exact H1.
    + rewrite last_item_cons. exact H2.
Qed.

(** ** The loops over the rationals and over binary64 *)

Section OverRationals.

Variable distance : Coordinates -> Coordinates -> Q.
Variable bearing : Coordinates -> Coordinates -> Q.
Variable extrapolate : Coordinates -> Q -> Q -> Coordinates.

Local Abbreviation interp_over :=
  (interpolate_over Q Coordinates 0 Qminus Qeq_bool Qlt_bool
                    distance bearing extrapolate).
Local Abbreviation body_over :=
  (split_body_over Q Coordinates 0 Qminus Qeq_bool Qlt_bool coord_eqb
                   distance bearing extrapolate).

Lemma interpolate_loop_over_rationals segments d :
  interpolate_loop_over Q Coordinates 0 Qminus Qeq_bool Qlt_bool
                        distance bearing extrapolate segments d
  = interpolate_loop distance bearing extrapolate segments d.
Proof.
  revert d. induction segments as [|[a b] rest IH]; intro d; [reflexivity|].
  simpl. rewrite IH. reflexivity.
Qed.

(** At the rationals the loop over any arithmetic is [interpolate]. *)
Lemma interpolate_over_rationals path d :
  interp_over path d = interpolate distance bearing extrapolate path d.
Proof.
  unfold interpolate_over, interpolate.
  rewrite interpolate_loop_over_rationals. reflexivity.
Qed.

Lemma line_string_length_over_rationals line :
  line_string_length_over Q Coordinates 0 Qplus distance line
  = line_string_length distance line.
Proof. reflexivity. Qed.

Lemma split_body_over_rationals st seg :
  body_over (to_over st) seg
  = (st' <- split_body distance bearing extrapolate st seg ;; Ok (to_over st')).
Proof.
  destruct seg as [a b]. destruct st as [fp sp r [s|]]; [reflexivity|].
  unfold split_body_over, split_body, to_over.
  cbn [splitpoint_over splitpoint remaining_offset_over remaining_offset
       first_part_over first_part second_part_over second_part].
  destruct (Qlt_bool r (distance a b)); [|reflexivity].
  rewrite interpolate_over_rationals.
  destruct (interpolate distance bearing extrapolate [a; b] r); reflexivity.
Qed.

Lemma for_each_over_rationals segments : forall st,
  for_each body_over (to_over st) segments
  = (st' <- for_each (split_body distance bearing extrapolate) st segments ;;
     Ok (to_over st')).
Proof.
  induction segments as [|seg rest IH]; intro st; [reflexivity|].
  cbn [for_each]. rewrite split_body_over_rationals.
  destruct (split_body distance bearing extrapolate st seg) as [st1|e];
    [|reflexivity].
  cbn [bind]. apply IH.
Qed.

Lemma part_or_none_over_rationals (part : list Coordinates) :
  part_or_none part = Ok (part_or_none_over Coordinates part).
Proof.
  destruct part as [|a [|b l]]; reflexivity.
Qed.

(** At the rationals the loop over any arithmetic is [split_line]. *)
Lemma split_line_over_rationals line d :
  split_line_over Q Coordinates 0 Qminus Qeq_bool Qlt_bool coord_eqb
                  distance bearing extrapolate line d
  = split_line distance bearing extrapolate line d.
Proof.
  unfold split_line_over, split_line.
  change (mkSplitOver Q Coordinates [] [] d None) with (to_over (mkSplit [] [] d None)).
  rewrite for_each_over_rationals.
  destruct (for_each (split_body distance bearing extrapolate)
                     (mkSplit [] [] d None) (pairwise line)) as [st|e];
    [|reflexivity].
  cbn [bind]. unfold to_over. cbn [splitpoint_over first_part_over second_part_over].
  destruct (splitpoint st); [|reflexivity].
  rewrite !part_or_none_over_rationals. reflexivity.
Qed.

End OverRationals.

(** In binary64 an offset of at least the computed length of a line can
    still fall into its last segment: on the road of 10.4 m, 11 m and
    10.4 m, whose computed length is just below 31.8, the offset 31.8 leaves
    just under 10.4 after the first two segments, and [split_line] cuts the
    last segment. *)
Lemma binary64_split_beyond_the_length :
  PrimFloat.leb (Binary64.line_string_length Binary64.road_c) Binary64.offset_c
  = true
  /\ exists s,
      Binary64.split_line Binary64.road_c Binary64.offset_c
      = Ok (Some (removelast Binary64.road_c ++ [s]),
            Some [s; Binary64.road_end])
      /\ PrimFloat.ltb PrimFloat.zero (Binary64.lat s) = true.
Proof.
  split; [vm_compute; reflexivity|].
  eexists. split; vm_compute; reflexivity.
Qed.

(** In binary64 an offset strictly inside the computed length of a line can
    pass every segment: on the road of 10.1 m, 11 m and 10.1 m, whose
    computed length is just above 31.2, the offset 31.2 leaves just over
    10.1 after the first two segments, and [split_line] returns the whole
    line and no second part. *)
Lemma binary64_no_split_inside_the_length :
  PrimFloat.ltb PrimFloat.zero Binary64.offset_d = true
  /\ PrimFloat.ltb Binary64.offset_d (Binary64.line_string_length Binary64.road_d)
     = true
  /\ Binary64.split_line Binary64.road_d Binary64.offset_d
     = Ok (Some Binary64.road_d, None).
Proof.
  repeat split; vm_compute; reflexivity.
Qed.

(** ** Lengths of polylines *)

Section Lengths.

Variable distance : Coordinates -> Coordinates -> Q.

Lemma fold_segments (segments : list (Coordinates * Coordinates)) (acc : Q) :
  fold_left (fun length ab => length + distance (fst ab) (snd ab)) segments acc
  == acc + segments_length distance segments.
Proof.
  revert acc. induction segments as [|[a b] rest IH]; intro acc; simpl.
  - lra.
  - rewrite IH. simpl. lra.
Qed.

Lemma line_string_length_segments (line : LineString) :
  line_string_length distance line == segments_length distance (pairwise line).
Proof.
  unfold line_string_length. rewrite fold_segments. lra.
Qed.

Hypothesis distance_nonneg : forall a b, 0 <= distance a b.

Lemma segments_length_nonneg segments : 0 <= segments_length distance segments.
Proof.
  induction segments as [|[a b] rest IH]; simpl; [lra|].
  specialize (distance_nonneg a b). lra.
Qed.

End Lengths.

(** ** [interpolate] *)

Section Interpolate.

Variable distance : Coordinates -> Coordinates -> Q.
Variable bearing : Coordinates -> Coordinates -> Q.
Variable extrapolate : Coordinates -> Q -> Q -> Coordinates.

Local Abbreviation interp := (interpolate distance bearing extrapolate).
Local Abbreviation interp_loop := (interpolate_loop distance bearing extrapolate).

Lemma interpolate_short (path : list Coordinates) (d : Q) :
  (List.length path < 2)%nat -> interp path d = Raise IndexError.
Proof.
  destruct path as [|a [|b l]]; simpl; intro H; try reflexivity. lia.
Qed.

Lemma interpolate_returns (path : list Coordinates) (d : Q) :
  (2 <= List.length path)%nat -> exists c, interp path d = Ok c.
Proof.
  destruct path as [|a [|b l]]; simpl; try lia. intros _.
  unfold interpolate.
  destruct (interp_loop (pairwise (a :: b :: l)) d) as [c|].
  - exists c. reflexivity.
  - destruct (last_item_pairwise a b l) as [seg [H _]].
    rewrite H. exists (snd seg). reflexivity.
Qed.

Lemma interpolate_negative (p0 p1 : Coordinates) (rest : list Coordinates) (d : Q) :
  d < 0 -> 0 <= distance p0 p1 ->
  interp (p0 :: p1 :: rest) d = Ok (extrapolate p0 d (bearing p0 p1)).
Proof.
  intros Hd Hnn. unfold interpolate.
  change (pairwise (p0 :: p1 :: rest)) with ((p0, p1) :: pairwise (p1 :: rest)).
  simpl.
  assert (E0 : Qeq_bool d 0 = false) by (apply Qeq_bool_false; lra).
  assert (E1 : Qlt_bool d (distance p0 p1) = true) by (apply Qlt_bool_true; lra).
  rewrite E0, E1. reflexivity.
Qed.

(** A walk that passes every segment runs to the end of the loop. *)
Lemma interpolate_loop_past (segments : list (Coordinates * Coordinates)) (d : Q) :
  walks_past distance segments d -> interp_loop segments d = None.
Proof.
  revert d. induction segments as [|[a b] rest IH]; intros d H; [reflexivity|].
  cbn [walks_past] in H. destruct H as [H0 [H1 H2]].
  cbn [interpolate_loop].
  apply Qeq_bool_false in H0. apply Qlt_bool_false in H1.
  rewrite H0, H1. apply IH. exact H2.
Qed.

Lemma interpolate_past (path : list Coordinates) (d : Q) :
  (2 <= List.length path)%nat ->
  walks_past distance (pairwise path) d ->
  interp path d = last_item path.
Proof.
  intros Hlen Hd. unfold interpolate. rewrite (interpolate_loop_past _ _ Hd).
  destruct path as [|a [|b l]]; simpl in Hlen; try lia.
  destruct (last_item_pairwise a b l) as [seg [H1 H2]].
  rewrite H1, H2. reflexivity.
Qed.

(** Over exact rationals, and with distances that are not negative, every
    offset beyond the length of the segments walks past them all.  In
    binary64 the subtractions round and this fails: see
    [interpolate_beyond_length_counterexample]. *)
Lemma walks_past_when_longer (segments : list (Coordinates * Coordinates)) (d : Q) :
  (forall a b, 0 <= distance a b) ->
  segments_length distance segments < d -> walks_past distance segments d.
Proof.
  intro Hnn. revert d.
  induction segments as [|[a b] rest IH]; intros d Hd; [exact I|].
  simpl in Hd.
  pose proof (segments_length_nonneg distance Hnn rest) as Hrest.
  pose proof (Hnn a b) as Hab.
  cbn [walks_past]. repeat split; try lra. apply IH. lra.
Qed.

End Interpolate.

(** C10, as the code has it.  [interpolate] returns a coordinate for every
    path of at least two coordinates and every offset.  A negative offset is
    extrapolated backwards from the first vertex along the first segment
    (whose length is not negative).  It returns the last vertex whenever the
    walk passes every segment, that is, when the distance that remains after
    the lengths of the segments are subtracted one at a time is never 0 and
    never below the length of the next segment.  A path of fewer than two
    coordinates raises [IndexError] whatever the offset, 0 included. *)
Theorem interpolate_total_on_paths
        (distance bearing : Coordinates -> Coordinates -> Q)
        (extrapolate : Coordinates -> Q -> Q -> Coordinates)
        (path : list Coordinates) (d : Q) :
  ((2 <= List.length path)%nat ->
   (exists c, interpolate distance bearing extrapolate path d = Ok c)
   /\ (d < 0 ->
       forall p0 p1 rest, path = p0 :: p1 :: rest -> 0 <= distance p0 p1 ->
       interpolate distance bearing extrapolate path d
       = Ok (extrapolate p0 d (bearing p0 p1)))
   /\ (walks_past distance (pairwise path) d ->
       interpolate distance bearing extrapolate path d = last_item path))
  /\ ((List.length path < 2)%nat ->
      interpolate distance bearing extrapolate path d = Raise IndexError
      /\ interpolate distance bearing extrapolate path 0 = Raise IndexError).
Proof.
  split.
  - intro Hlen. split; [|split].
    + apply interpolate_returns. exact Hlen.
    + intros Hd p0 p1 rest -> Hnn. apply interpolate_negative; assumption.
    + intro Hd. apply interpolate_past; assumption.
  - intro Hlen. split; apply interpolate_short; exact Hlen.
Qed.

Lemma interpolate_total_on_paths_witness :
  (exists c, interpolate Grid.distance Grid.bearing Grid.extrapolate
                         [pt 0 0; pt 0 100] (- (20)) = Ok c)
  /\ interpolate Grid.distance Grid.bearing Grid.extrapolate
                 [pt 0 0; pt 0 100] (- (20))
     = Ok (Grid.extrapolate (pt 0 0) (- (20)) (Grid.bearing (pt 0 0) (pt 0 100)))
  /\ interpolate Grid.distance Grid.bearing Grid.extrapolate
                 [pt 0 0; pt 0 100] 120
     = last_item [pt 0 0; pt 0 100]
  /\ interpolate Grid.distance Grid.bearing Grid.extrapolate [pt 0 0] 0
     = Raise IndexError.
Proof.
  pose proof (interpolate_total_on_paths Grid.distance Grid.bearing
                Grid.extrapolate [pt 0 0; pt 0 100] (- (20))) as [H _].
  destruct (H ltac:(simpl; lia)) as [Ha [Hb _]].
  pose proof (interpolate_total_on_paths Grid.distance Grid.bearing
                Grid.extrapolate [pt 0 0; pt 0 100] 120) as [K _].
  destruct (K ltac:(simpl; lia)) as [_ [_ Kc]].
  pose proof (interpolate_total_on_paths Grid.distance Grid.bearing
                Grid.extrapolate [pt 0 0] 0) as [_ L].
  split; [|split; [|split]].
  - exact Ha.
  - apply (Hb ltac:(reflexivity) _ _ _ eq_refl). vm_compute. discriminate.
  - apply Kc. simpl. repeat split; vm_compute; discriminate.
  - apply L. simpl. lia.
Defined.

(** C10 fails as stated.  In binary64, on the road of 10.4 m, 11 m and
    10.4 m, the offset 31.8 is greater than the computed length of the
    road, yet [interpolate] does not return the last vertex: after the first
    two segments just under 10.4 remain, and the point returned is
    extrapolated inside the last segment, a little before its end. *)
Lemma interpolate_beyond_length_counterexample :
  PrimFloat.ltb (Binary64.line_string_length Binary64.road_c) Binary64.offset_c
  = true
  /\ Binary64.interpolate Binary64.road_c Binary64.offset_c
     = Ok Binary64.before_road_end
  /\ last_item Binary64.road_c = Ok Binary64.road_end
  /\ Binary64.interpolate Binary64.road_c Binary64.offset_c
     <> last_item Binary64.road_c.
Proof.
  assert (H1 : Binary64.interpolate Binary64.road_c Binary64.offset_c
               = Ok Binary64.before_road_end) by (vm_compute; reflexivity).
  assert (H2 : last_item Binary64.road_c = Ok Binary64.road_end)
    by reflexivity.
  split; [vm_compute; reflexivity|].
  split; [exact H1|]. split; [exact H2|].
  rewrite H1, H2. intro E.
  pose proof (f_equal (fun r => match r with
                                  | Ok c => PrimFloat.eqb (Binary64.lat c) PrimFloat.zero
                                  | Raise _ => true
                                  end) E) as K.
  vm_compute in K. discriminate.
Qed.

(** ** [split_line] *)

Lemma map_snd_pairwise {A : Type} (a : A) (l : list A) :
  map snd (pairwise (a :: l)) = l.
Proof.
  revert a. induction l as [|b l IH]; intro a; [reflexivity|].
  change (pairwise (a :: b :: l)) with ((a, b) :: pairwise (b :: l)).
  simpl. f_equal. apply IH.
Qed.

(** A segment of the path, with what comes before and after it. *)
Lemma pairwise_segment {A : Type} (l : list A) pre (p q : A) post :
  pairwise l = pre ++ (p, q) :: post ->
  l = map fst pre ++ p :: q :: map snd post.
Proof.
  revert l. induction pre as [|[a b] pre IH]; intros l H.
  - destruct l as [|x [|y l]]; try discriminate.
    change (pairwise (x :: y :: l)) with ((x, y) :: pairwise (y :: l)) in H.
    remember (pairwise (y :: l)) as t eqn:Et.
    injection H as -> -> ->. cbn [map app].
    rewrite Et, map_snd_pairwise. reflexivity.
  - destruct l as [|x [|y l]]; try discriminate.
    change (pairwise (x :: y :: l)) with ((x, y) :: pairwise (y :: l)) in H.
    remember (pairwise (y :: l)) as t eqn:Et.
    cbn [app] in H. injection H as -> -> H. cbn [map app fst]. f_equal.
    apply IH. rewrite <- Et. exact H.
Qed.

Lemma pairwise_head {A : Type} (y : A) (l : list A) u v t :
  pairwise (y :: l) = (u, v) :: t -> y = u.
Proof.
  destruct l as [|z l]; [discriminate|].
  change (pairwise (y :: z :: l)) with ((y, z) :: pairwise (z :: l)).
  congruence.
Qed.

(** The segments before a segment are those of the vertices before its end. *)
Lemma pairwise_prefix {A : Type} (l : list A) pre (p q : A) post :
  pairwise l = pre ++ (p, q) :: post ->
  pairwise (map fst pre ++ [p]) = pre.
Proof.
  revert l. induction pre as [|[a b] pre IH]; intros l H; [reflexivity|].
  destruct l as [|x [|y l]]; try discriminate.
  change (pairwise (x :: y :: l)) with ((x, y) :: pairwise (y :: l)) in H.
  remember (pairwise (y :: l)) as t eqn:Et.
  cbn [app] in H. injection H as -> -> H. subst t.
  specialize (IH _ H). cbn [map fst app].
  destruct pre as [|[u v] pre].
  - cbn [app] in H. apply pairwise_head in H. subst. reflexivity.
  - cbn [app] in H. apply pairwise_head in H. subst.
    cbn [map fst app] in *.
    change (pairwise (a :: u :: map fst pre ++ [p]))
      with ((a, u) :: pairwise (u :: map fst pre ++ [p])).
    rewrite IH. reflexivity.
Qed.

Section SplitLine.

Variable distance : Coordinates -> Coordinates -> Q.
Variable bearing : Coordinates -> Coordinates -> Q.
Variable extrapolate : Coordinates -> Q -> Q -> Coordinates.

Local Abbreviation interp := (interpolate distance bearing extrapolate).
Local Abbreviation body := (split_body distance bearing extrapolate).
Local Abbreviation split := (split_line distance bearing extrapolate).

(** Inside a segment [interpolate] returns its start for the offset 0 and
    an extrapolated point otherwise. *)
Lemma interpolate_segment (p q : Coordinates) (r : Q) :
  r < distance p q ->
  interp [p; q] r
  = Ok (if Qeq_bool r 0 then p else extrapolate p r (bearing p q)).
Proof.
  intro Hr. unfold interpolate. simpl.
  destruct (Qeq_bool r 0); [reflexivity|].
  apply Qlt_bool_true in Hr. rewrite Hr. reflexivity.
Qed.

(** Once the split point is known the loop only extends the second part. *)
Lemma split_after segs fp sp r s :
  for_each body (mkSplit fp sp r (Some s)) segs
  = Ok (mkSplit fp (sp ++ map snd segs) r (Some s)).
Proof.
  revert sp. induction segs as [|[a b] segs IH]; intro sp; simpl.
  - rewrite app_nil_r. reflexivity.
  - rewrite IH, <- app_assoc. reflexivity.
Qed.

(** The loop of [split_line]: either no segment is reached by the offset,
    which is then at least the length of the segments, or the offset falls
    into a segment [(p, q)], where the split point [s] is interpolated at
    the offset [r] that remains. *)
Lemma split_scan segs : forall fp rem,
  (exists st, for_each body (mkSplit fp [] rem None) segs = Ok st
              /\ splitpoint st = None
              /\ (segs <> [] -> segments_length distance segs <= rem))
  \/ (exists pre p q post s r r',
         segs = pre ++ (p, q) :: post
         /\ r == rem - segments_length distance pre
         /\ (pre = [] -> r = rem)
         /\ r < distance p q
         /\ interp [p; q] r = Ok s
         /\ for_each body (mkSplit fp [] rem None) segs
            = Ok (mkSplit
                    (fp ++ map fst pre ++ [p]
                        ++ (if coord_eqb s p then [] else [s]))
                    (s :: q :: map snd post) r' (Some s))).
Proof.
  induction segs as [|[a b] segs IH]; intros fp rem.
  - left. eexists. simpl. repeat split. congruence.
  - simpl. destruct (Qlt_bool rem (distance a b)) eqn:E.
    + right. apply Qlt_bool_true in E.
      pose proof (interpolate_segment a b rem E) as Hs.
      set (s := if Qeq_bool rem 0 then a else extrapolate a rem (bearing a b)) in Hs.
      exists [], a, b, segs, s, rem, (rem - distance a b).
      repeat split; try assumption; try reflexivity.
      * simpl. lra.
      * rewrite Hs. simpl. rewrite split_after. simpl.
        destruct (coord_eqb s a); simpl; rewrite <- ?app_assoc; reflexivity.
    + apply Qlt_bool_false in E.
      destruct (IH (fp ++ [a]) (rem - distance a b))
        as [[st [H1 [H2 H3]]]
           |[pre [p [q [post [s [r [r' [H1 [H2 [H3 [H4 [H5 H6]]]]]]]]]]]]].
      * left. exists st. repeat split; try assumption. intros _.
        destruct segs as [|sg segs]; [simpl; lra|].
        assert (sg :: segs <> []) as Hne by discriminate.
        specialize (H3 Hne). lra.
      * right. exists ((a, b) :: pre), p, q, post, s, r, r'.
        repeat split; try assumption.
        -- rewrite H1. reflexivity.
        -- simpl. rewrite H2. lra.
        -- discriminate.
        -- etransitivity; [exact H6|].
           simpl. rewrite <- !app_assoc. reflexivity.
Qed.

(** [split_line] in terms of the vertices of the line. *)
Lemma split_line_cases (line : LineString) (d : Q) :
  (split line d = Ok (Some line, None)
   /\ ((2 <= List.length line)%nat -> line_string_length distance line <= d))
  \/ (exists pre p q post s r,
         line = pre ++ p :: q :: post
         /\ r == d - segments_length distance (pairwise (pre ++ [p]))
         /\ (pre = [] -> r = d)
         /\ r < distance p q
         /\ interp [p; q] r = Ok s
         /\ split line d
            = (first <- part_or_none
                          (pre ++ [p] ++ (if coord_eqb s p then [] else [s])) ;;
               Ok (first, Some (s :: q :: post)))).
Proof.
  unfold split_line.
  destruct (split_scan (pairwise line) [] d)
    as [[st [H1 [H2 H3]]]
       |[pre [p [q [post [s [r [r' [H1 [H2 [H3 [H4 [H5 H6]]]]]]]]]]]]].
  - left. rewrite H1. simpl. rewrite H2. split; [reflexivity|].
    intro Hlen. rewrite line_string_length_segments. apply H3.
    destruct line as [|x [|y line]]; simpl in Hlen; try lia. discriminate.
  - right. pose proof (pairwise_segment _ _ _ _ _ H1) as Hline.
    exists (map fst pre), p, q, (map snd post), s, r.
    repeat split; try assumption.
    + rewrite H2. apply Qplus_inj_l.
      rewrite (pairwise_prefix _ _ _ _ _ H1). reflexivity.
    + intro Hpre. apply H3. destruct pre; [reflexivity|discriminate].
    + rewrite H6. simpl. reflexivity.
Qed.

End SplitLine.

(** ** [join_lines] *)

Lemma connected_spec (a b : LineString) l f t :
  last_item a = Ok l -> b = f :: t -> connected a b = coord_eqb f l.
Proof.
  intros Ha ->. unfold connected. rewrite Ha. reflexivity.
Qed.

(** From the second line on, the loop adds each line without its first
    vertex as long as the lines are connected. *)
Lemma join_loop_chain (lines : list LineString) :
  forall prev coords l,
    last_item prev = Ok l ->
    Forall (fun cs => cs <> []) lines ->
    (forall pre a b post, prev :: lines = pre ++ a :: b :: post ->
                          connected a b = true) ->
    join_loop lines coords (Some l)
    = Ok (coords ++ List.concat (map (@tl Coordinates) lines)).
Proof.
  induction lines as [|cs rest IH]; intros prev coords l Hl Hne Hcon.
  - simpl. rewrite app_nil_r. reflexivity.
  - inversion Hne as [|? ? Hcs Hrest]; subst.
    destruct cs as [|f t]; [congruence|].
    pose proof (Hcon [] prev (f :: t) rest eq_refl) as Hc.
    rewrite (connected_spec _ _ _ _ _ Hl eq_refl) in Hc.
    destruct (last_item_some f t) as [l' Hl'].
    cbn [join_loop first_item bind]. rewrite Hc. cbn [negb bind].
    rewrite Hl'. cbn [bind tl].
    rewrite (IH (f :: t) (coords ++ t) l' Hl' Hrest).
    + cbn [map List.concat tl]. rewrite app_assoc. reflexivity.
    + intros pre a b post E. apply (Hcon (prev :: pre) a b post).
      simpl. f_equal. exact E.
Qed.

(** The loop raises at the first line that does not start where the
    previous one ends. *)
Lemma join_loop_broken (lines : list LineString) :
  forall prev coords l,
    last_item prev = Ok l ->
    Forall (fun cs => cs <> []) lines ->
    (exists pre a b post, prev :: lines = pre ++ a :: b :: post
                          /\ connected a b = false) ->
    join_loop lines coords (Some l) = Raise not_connected.
Proof.
  induction lines as [|cs rest IH]; intros prev coords l Hl Hne Hbr.
  - destruct Hbr as [pre [a [b [post [E _]]]]].
    apply (f_equal (@List.length _)) in E. rewrite length_app in E.
    simpl in E. lia.
  - inversion Hne as [|? ? Hcs Hrest]; subst.
    destruct cs as [|f t]; [congruence|].
    destruct (last_item_some f t) as [l' Hl'].
    cbn [join_loop first_item bind].
    destruct (coord_eqb f l) eqn:Hc; cbn [negb bind]; [|reflexivity].
    rewrite Hl'. cbn [bind]. apply (IH (f :: t) _ l' Hl' Hrest).
    destruct Hbr as [pre [a [b [post [E Hab]]]]].
    destruct pre as [|x pre].
    + cbn [app] in E. injection E as <- <- <-.
      rewrite (connected_spec _ _ _ _ _ Hl eq_refl) in Hab. congruence.
    + cbn [app] in E. injection E as <- E.
      exists pre, a, b, post. split; assumption.
Qed.

Lemma nonempty_of_valid (lines : list LineString) :
  Forall (fun cs => (2 <= List.length cs)%nat) lines ->
  Forall (fun cs => cs <> []) lines.
Proof.
  apply Forall_impl. intros cs H ->. simpl in H. lia.
Qed.

Lemma join_lines_connected (lines : list LineString) :
  Forall (fun cs => (2 <= List.length cs)%nat) lines ->
  (forall pre a b post, lines = pre ++ a :: b :: post -> connected a b = true) ->
  join_lines lines = Ok (chain lines).
Proof.
  intros Hvalid Hcon. unfold join_lines.
  destruct lines as [|cs rest]; [reflexivity|].
  inversion Hvalid as [|? ? Hcs Hrest]; subst.
  destruct cs as [|f [|g t]]; simpl in Hcs; try lia.
  destruct (last_item_some f (g :: t)) as [l' Hl'].
  cbn [join_loop first_item bind app]. rewrite Hl'. cbn [bind tl].
  rewrite (join_loop_chain rest (f :: g :: t) _ l' Hl'
                           (nonempty_of_valid _ Hrest) Hcon).
  reflexivity.
Qed.

Lemma join_lines_broken (lines : list LineString) :
  Forall (fun cs => (2 <= List.length cs)%nat) lines ->
  (exists pre a b post, lines = pre ++ a :: b :: post /\ connected a b = false) ->
  join_lines lines = Raise not_connected.
Proof.
  intros Hvalid Hbr. unfold join_lines.
  destruct lines as [|cs rest].
  - destruct Hbr as [pre [a [b [post [E _]]]]]. destruct pre; discriminate.
  - inversion Hvalid as [|? ? Hcs Hrest]; subst.
    destruct cs as [|f [|g t]]; simpl in Hcs; try lia.
    destruct (last_item_some f (g :: t)) as [l' Hl'].
    cbn [join_loop first_item bind app]. rewrite Hl'. cbn [bind tl].
    rewrite (join_loop_broken rest (f :: g :: t) _ l' Hl'
                              (nonempty_of_valid _ Hrest) Hbr).
    reflexivity.
Qed.

(** C6.  On polylines (line strings of at least two vertices): when some
    polyline does not start at the last coordinate of the one before it,
    [join_lines] raises the error for disconnected geometries; when every
    polyline starts where the one before it ends, it returns the
    concatenation in which each shared endpoint occurs once. *)
Theorem join_lines_connected_or_error (lines : list LineString)
        (valid : Forall (fun cs => (2 <= List.length cs)%nat) lines) :
  ((exists pre a b post, lines = pre ++ a :: b :: post /\ connected a b = false) ->
   join_lines lines = Raise (ValueError "Lines are not connected"))
  /\ ((forall pre a b post, lines = pre ++ a :: b :: post -> connected a b = true) ->
      join_lines lines = Ok (chain lines)).
Proof.
  split.
  - apply join_lines_broken. exact valid.
  - apply join_lines_connected. exact valid.
Qed.

(** ** Splitting and joining *)

Lemma part_or_none_some (part : list Coordinates) :
  (2 <= List.length part)%nat -> part_or_none part = Ok (Some part).
Proof.
  destruct part as [|a [|b l]]; simpl; intro H; try lia. reflexivity.
Qed.

Lemma part_or_none_inv (part : list Coordinates) (ls : LineString) :
  part_or_none part = Ok (Some ls) -> ls = part /\ (2 <= List.length part)%nat.
Proof.
  destruct part as [|a [|b l]]; simpl; intro H; try discriminate.
  injection H as <-. split; [reflexivity|lia].
Qed.

(** Joining a first part that ends in [l] with a second part that starts
    with a coordinate equal to [l]. *)
Lemma join_two (first : LineString) (l s q : Coordinates) (post : list Coordinates) :
  (2 <= List.length first)%nat ->
  last_item first = Ok l ->
  coord_eqb s l = true ->
  join_lines [first; s :: q :: post] = Ok (first ++ q :: post).
Proof.
  intros Hlen Hl Hs.
  rewrite join_lines_connected.
  - simpl. rewrite app_nil_r. reflexivity.
  - constructor; [exact Hlen|]. constructor; [simpl; lia|]. constructor.
  - intros pre a b post' E.
    destruct pre as [|x [|y pre]]; simpl in E.
    + injection E as <- <- _. rewrite (connected_spec _ _ _ _ _ Hl eq_refl).
      exact Hs.
    + injection E as _ E. discriminate.
    + injection E as _ _ E. destruct pre; discriminate.
Qed.

Section SplitJoin.

Variable distance : Coordinates -> Coordinates -> Q.
Variable bearing : Coordinates -> Coordinates -> Q.
Variable extrapolate : Coordinates -> Q -> Q -> Coordinates.

Local Abbreviation interp := (interpolate distance bearing extrapolate).
Local Abbreviation body := (split_body distance bearing extrapolate).
Local Abbreviation split := (split_line distance bearing extrapolate).

(** The shape of the two parts when [split_line] returns both. *)
Lemma split_two_parts (line first second : LineString) (d : Q) :
  split line d = Ok (Some first, Some second) ->
  exists pre p q post s,
    line = pre ++ p :: q :: post
    /\ second = s :: q :: post
    /\ ((coord_eqb s p = false /\ first = pre ++ [p; s])
        \/ (coord_eqb s p = true /\ pre <> [] /\ first = pre ++ [p])).
Proof.
  intro H.
  destruct (split_line_cases distance bearing extrapolate line d)
    as [[H1 _]|[pre [p [q [post [s [r [H1 [_ [_ [_ [_ H6]]]]]]]]]]]].
  - rewrite H1 in H. discriminate.
  - rewrite H6 in H. exists pre, p, q, post, s.
    destruct (part_or_none (pre ++ [p] ++ (if coord_eqb s p then [] else [s])))
      as [[ls|]|e] eqn:Hp; simpl in H; try discriminate.
    injection H as <- <-. apply part_or_none_inv in Hp. destruct Hp as [-> Hlen].
    repeat split; try assumption.
    destruct (coord_eqb s p).
    + right. repeat split. intros ->. simpl in Hlen. lia.
    + left. split; reflexivity.
Qed.

Lemma split_line_zero (p0 p1 : Coordinates) (rest : list Coordinates) (d : Q) :
  d == 0 -> 0 < distance p0 p1 ->
  split (p0 :: p1 :: rest) d = Ok (None, Some (p0 :: p1 :: rest)).
Proof.
  intros Hd Hpos. unfold split_line.
  change (pairwise (p0 :: p1 :: rest)) with ((p0, p1) :: pairwise (p1 :: rest)).
  assert (Hlt : d < distance p0 p1) by lra.
  pose proof (interpolate_segment distance bearing extrapolate p0 p1 d Hlt) as Hi.
  apply Qeq_bool_iff in Hd. rewrite Hd in Hi.
  apply Qlt_bool_true in Hlt.
  cbn [for_each]. unfold split_body at 1. cbn [splitpoint remaining_offset first_part].
  rewrite Hlt, Hi. cbn [bind]. rewrite coord_eqb_refl. cbn [negb].
  rewrite split_after. cbn [bind splitpoint first_part second_part app].
  rewrite map_snd_pairwise. reflexivity.
Qed.

End SplitJoin.

Lemma Grid_distance_nonneg (a b : Coordinates) : 0 <= Grid.distance a b.
Proof.
  unfold Grid.distance.
  pose proof (Qabs_nonneg (lon b - lon a)).
  pose proof (Qabs_nonneg (lat b - lat a)). lra.
Qed.

(** ** The segment of the split *)

Lemma pairwise_app_segment {A : Type} (pre : list A) (p q : A) (post : list A) :
  pairwise (pre ++ p :: q :: post)
  = pairwise (pre ++ [p]) ++ (p, q) :: pairwise (q :: post).
Proof.
  induction pre as [|a pre IH]; [reflexivity|].
  destruct pre as [|b pre].
  - change (pairwise ([a] ++ p :: q :: post))
      with ((a, p) :: pairwise ([] ++ p :: q :: post)).
    rewrite IH. reflexivity.
  - change (pairwise ((a :: b :: pre) ++ p :: q :: post))
      with ((a, b) :: pairwise ((b :: pre) ++ p :: q :: post)).
    change (pairwise ((a :: b :: pre) ++ [p]))
      with ((a, b) :: pairwise ((b :: pre) ++ [p])).
    rewrite IH. reflexivity.
Qed.

Lemma map_fst_pairwise {A : Type} (pre : list A) (p : A) :
  map fst (pairwise (pre ++ [p])) = pre.
Proof.
  induction pre as [|a pre IH]; [reflexivity|].
  destruct pre as [|b pre]; [reflexivity|].
  change (pairwise ((a :: b :: pre) ++ [p]))
    with ((a, b) :: pairwise ((b :: pre) ++ [p])).
  cbn [map fst]. rewrite IH. reflexivity.
Qed.

Section Walk.

Variable distance : Coordinates -> Coordinates -> Q.
Variable bearing : Coordinates -> Coordinates -> Q.
Variable extrapolate : Coordinates -> Q -> Q -> Coordinates.

Local Abbreviation body := (split_body distance bearing extrapolate).
Local Abbreviation split := (split_line distance bearing extrapolate).
Local Abbreviation point := (split_point bearing extrapolate).

Lemma passes_app pre post : forall r,
  passes distance (pre ++ post) r
  <-> passes distance pre r
      /\ passes distance post (remaining_after distance pre r).
Proof.
  induction pre as [|[a b] pre IH]; intro r.
  - simpl. tauto.
  - cbn [app passes]. rewrite IH. unfold remaining_after. cbn [fold_left fst snd].
    tauto.
Qed.

(** Either the loop passes every segment, or there is a first segment whose
    length the remaining offset does not reach. *)
Lemma scan_dichotomy segs : forall r,
  passes distance segs r
  \/ exists pre p q post,
      segs = pre ++ (p, q) :: post
      /\ passes distance pre r
      /\ remaining_after distance pre r < distance p q.
Proof.
  induction segs as [|[a b] segs IH]; intro r.
  - left. exact I.
  - destruct (Qlt_le_dec r (distance a b)) as [Hlt|Hle].
    + right. exists [], a, b, segs. repeat split. exact Hlt.
    + destruct (IH (r - distance a b)) as [H|[pre [p [q [post [H1 [H2 H3]]]]]]].
      * left. split; assumption.
      * right. exists ((a, b) :: pre), p, q, post. repeat split.
        -- rewrite H1. reflexivity.
        -- exact Hle.
        -- exact H2.
        -- exact H3.
Qed.

Lemma split_scan_all segs : forall fp r,
  passes distance segs r ->
  for_each body (mkSplit fp [] r None) segs
  = Ok (mkSplit (fp ++ map fst segs) [] (remaining_after distance segs r) None).
Proof.
  induction segs as [|[a b] segs IH]; intros fp r H.
  - simpl. rewrite app_nil_r. reflexivity.
  - destruct H as [Hle H]. apply Qlt_bool_false in Hle.
    cbn [for_each]. unfold split_body at 1.
    cbn [splitpoint remaining_offset first_part second_part].
    rewrite Hle. cbn [bind]. rewrite (IH _ _ H).
    cbn [map fst]. rewrite <- app_assoc. reflexivity.
Qed.

Lemma split_scan_at pre p q post : forall fp r,
  passes distance pre r ->
  remaining_after distance pre r < distance p q ->
  for_each body (mkSplit fp [] r None) (pre ++ (p, q) :: post)
  = Ok (mkSplit
          (fp ++ map fst pre ++ [p]
              ++ (if coord_eqb (point p q (remaining_after distance pre r)) p
                  then [] else [point p q (remaining_after distance pre r)]))
          (point p q (remaining_after distance pre r) :: q :: map snd post)
          (remaining_after distance pre r - distance p q)
          (Some (point p q (remaining_after distance pre r)))).
Proof.
  induction pre as [|[a b] pre IH]; intros fp r Hpass Hlt.
  - cbn [app remaining_after fold_left map] in *.
    pose proof (interpolate_segment distance bearing extrapolate p q r Hlt) as Hs.
    apply Qlt_bool_true in Hlt.
    cbn [for_each]. unfold split_body at 1.
    cbn [splitpoint remaining_offset first_part second_part].
    rewrite Hlt, Hs. cbn [bind]. rewrite split_after.
    unfold split_point.
    destruct (coord_eqb (if Qeq_bool r 0 then p else extrapolate p r (bearing p q)) p);
      cbn [negb app]; rewrite <- ?app_assoc; reflexivity.
  - destruct Hpass as [Hle Hpass]. apply Qlt_bool_false in Hle.
    cbn [app for_each]. unfold split_body at 1.
    cbn [splitpoint remaining_offset first_part second_part].
    rewrite Hle. cbn [bind].
    change (remaining_after distance ((a, b) :: pre) r)
      with (remaining_after distance pre (r - distance a b)) in *.
    rewrite (IH _ _ Hpass Hlt). cbn [map fst]. rewrite <- !app_assoc. reflexivity.
Qed.

(** The loop in terms of the vertices of the line. *)
Lemma split_line_dichotomy (line : LineString) (d : Q) :
  passes distance (pairwise line) d
  \/ exists pre p q post,
      line = pre ++ p :: q :: post
      /\ passes distance (pairwise (pre ++ [p])) d
      /\ remaining_after distance (pairwise (pre ++ [p])) d < distance p q.
Proof.
  destruct (scan_dichotomy (pairwise line) d)
    as [H|[pre [p [q [post [H1 [H2 H3]]]]]]]; [left; exact H|].
  right. exists (map fst pre), p, q, (map snd post).
  rewrite (pairwise_prefix _ _ _ _ _ H1).
  repeat split; try assumption. apply (pairwise_segment _ _ _ _ _ H1).
Qed.

Lemma split_line_passes (line : LineString) (d : Q) :
  passes distance (pairwise line) d -> split line d = Ok (Some line, None).
Proof.
  intro H. unfold split_line. rewrite (split_scan_all _ _ _ H). reflexivity.
Qed.

Lemma split_line_at (pre : list Coordinates) (p q : Coordinates)
      (post : list Coordinates) (d : Q) :
  passes distance (pairwise (pre ++ [p])) d ->
  remaining_after distance (pairwise (pre ++ [p])) d < distance p q ->
  split (pre ++ p :: q :: post) d
  = (first <- part_or_none
                (pre ++ [p]
                     ++ (if coord_eqb
                              (point p q (remaining_after distance
                                                          (pairwise (pre ++ [p])) d))
                              p
                         then []
                         else [point p q (remaining_after distance
                                                          (pairwise (pre ++ [p])) d)])) ;;
     Ok (first,
         Some (point p q (remaining_after distance (pairwise (pre ++ [p])) d)
                 :: q :: post))).
Proof.
  intros Hpass Hlt. unfold split_line.
  rewrite pairwise_app_segment, (split_scan_at _ _ _ _ _ _ Hpass Hlt).
  cbn [bind splitpoint first_part second_part app].
  rewrite map_fst_pairwise, map_snd_pairwise.
  rewrite (part_or_none_some (_ :: q :: post)) by (simpl; lia).
  reflexivity.
Qed.

(** A split point is found exactly when the loop does not pass every
    segment. *)
Lemma split_line_whole_iff (line : LineString) (d : Q) :
  split line d = Ok (Some line, None) <-> passes distance (pairwise line) d.
Proof.
  split; [|apply split_line_passes].
  intro H.
  destruct (split_line_dichotomy line d)
    as [Hp|[pre [p [q [post [Hl [H2 H3]]]]]]]; [exact Hp|].
  exfalso. rewrite Hl, (split_line_at _ _ _ _ _ H2 H3) in H.
  destruct (part_or_none _) in H; cbn [bind] in H; discriminate.
Qed.

Lemma split_line_negative (p0 p1 : Coordinates) (rest : list Coordinates) (d : Q) :
  d < 0 -> 0 <= distance p0 p1 ->
  split (p0 :: p1 :: rest) d
  = Ok (if coord_eqb (extrapolate p0 d (bearing p0 p1)) p0 then None
        else Some [p0; extrapolate p0 d (bearing p0 p1)],
        Some (extrapolate p0 d (bearing p0 p1) :: p1 :: rest)).
Proof.
  intros Hd Hnn.
  assert (Hlt : remaining_after distance (pairwise ([] ++ [p0])) d < distance p0 p1)
    by (simpl; lra).
  pose proof (split_line_at [] p0 p1 rest d I Hlt) as H.
  cbn [app pairwise remaining_after fold_left] in H.
  unfold split_point in H.
  assert (E0 : Qeq_bool d 0 = false) by (apply Qeq_bool_false; lra).
  rewrite E0 in H. rewrite H.
  destruct (coord_eqb (extrapolate p0 d (bearing p0 p1)) p0); reflexivity.
Qed.

(** Over exact rationals, and with distances that are not negative, every
    offset of at least the length of the segments passes them all.  In
    binary64 the subtractions round and this fails in both directions: see
    [binary64_split_beyond_the_length] and
    [binary64_no_split_inside_the_length]. *)
Lemma passes_when_long segs : forall r,
  (forall a b, 0 <= distance a b) ->
  segments_length distance segs <= r -> passes distance segs r.
Proof.
  induction segs as [|[a b] segs IH]; intros r Hnn Hr; [exact I|].
  simpl in Hr.
  pose proof (segments_length_nonneg distance Hnn segs) as Hrest.
  split; [lra|]. apply IH; [exact Hnn|lra].
Qed.

End Walk.

(** C4, as the code has it.  [split_line] returns [(line, None)] exactly
    when the loop passes every segment: the offset that remains after the
    lengths of the segments before are subtracted one at a time is never
    below the length of the next segment.  It returns [(None, line)] for the
    offset 0 on a line whose first segment has a positive length.  For a
    negative offset (and a first segment whose length is not negative) the
    split point is extrapolated backwards from the first vertex; the second
    part starts with it instead of the first vertex, and the first part is
    the line from the first vertex to it, or [None] only when it equals the
    first vertex. *)
Theorem split_line_at_the_ends
        (distance bearing : Coordinates -> Coordinates -> Q)
        (extrapolate : Coordinates -> Q -> Q -> Coordinates)
        (line : LineString) (d : Q) :
  (split_line distance bearing extrapolate line d = Ok (Some line, None)
   <-> passes distance (pairwise line) d)
  /\ (d == 0 ->
      forall p0 p1 rest, line = p0 :: p1 :: rest -> 0 < distance p0 p1 ->
      split_line distance bearing extrapolate line d = Ok (None, Some line))
  /\ (d < 0 ->
      forall p0 p1 rest, line = p0 :: p1 :: rest -> 0 <= distance p0 p1 ->
      split_line distance bearing extrapolate line d
      = Ok (if coord_eqb (extrapolate p0 d (bearing p0 p1)) p0 then None
            else Some [p0; extrapolate p0 d (bearing p0 p1)],
            Some (extrapolate p0 d (bearing p0 p1) :: p1 :: rest))).
Proof.
  split; [|split].
  - apply split_line_whole_iff.
  - intros Hd p0 p1 rest -> Hpos. apply split_line_zero; assumption.
  - intros Hd p0 p1 rest -> Hnn. apply split_line_negative; assumption.
Qed.

Lemma split_line_at_the_ends_witness :
  split_line Grid.distance Grid.bearing Grid.extrapolate
             [pt 0 0; pt 0 100; pt 0 200] 200
  = Ok (Some [pt 0 0; pt 0 100; pt 0 200], None)
  /\ split_line Grid.distance Grid.bearing Grid.extrapolate
                [pt 0 0; pt 0 100; pt 0 200] 0
     = Ok (None, Some [pt 0 0; pt 0 100; pt 0 200])
  /\ split_line Grid.distance Grid.bearing Grid.extrapolate
                [pt 0 0; pt 0 100; pt 0 200] (- (20))
     = Ok (if coord_eqb (Grid.extrapolate (pt 0 0) (- (20))
                                          (Grid.bearing (pt 0 0) (pt 0 100)))
                        (pt 0 0)
           then None
           else Some [pt 0 0;
                      Grid.extrapolate (pt 0 0) (- (20))
                                       (Grid.bearing (pt 0 0) (pt 0 100))],
           Some (Grid.extrapolate (pt 0 0) (- (20))
                                  (Grid.bearing (pt 0 0) (pt 0 100))
                   :: [pt 0 100; pt 0 200])).
Proof.
  pose proof (split_line_at_the_ends Grid.distance Grid.bearing Grid.extrapolate
                [pt 0 0; pt 0 100; pt 0 200] 200) as [H1 _].
  pose proof (split_line_at_the_ends Grid.distance Grid.bearing Grid.extrapolate
                [pt 0 0; pt 0 100; pt 0 200] 0) as [_ [H2 _]].
  pose proof (split_line_at_the_ends Grid.distance Grid.bearing Grid.extrapolate
                [pt 0 0; pt 0 100; pt 0 200] (- (20))) as [_ [_ H3]].
  split; [|split].
  - apply H1. simpl. repeat split; vm_compute; discriminate.
  - apply (H2 (Qeq_refl 0) _ _ _ eq_refl). vm_compute. reflexivity.
  - apply (H3 ltac:(reflexivity) _ _ _ eq_refl). vm_compute. discriminate.
Defined.

(** C4 fails as stated.  At the offset -20 on a straight line of 100 m the
    first part is the line from the start to the point 20 m before it, and
    the second part starts at that point; at the offset 0 on a line that
    starts with a segment of length 0 the first part is that segment. *)
Lemma split_line_nonpositive_offset_counterexample :
  - (20) <= 0
  /\ split_line Grid.distance Grid.bearing Grid.extrapolate
                [pt 0 0; pt 0 100] (- (20))
     = Ok (Some [pt 0 0; pt 0 (- (20))], Some [pt 0 (- (20)); pt 0 100])
  /\ split_line Grid.distance Grid.bearing Grid.extrapolate
                [pt 0 0; pt 0 100] (- (20))
     <> Ok (None, Some [pt 0 0; pt 0 100])
  /\ split_line Grid.distance Grid.bearing Grid.extrapolate
                [pt 0 0; pt 0 0; pt 0 100] 0
     = Ok (Some [pt 0 0; pt 0 0], Some [pt 0 0; pt 0 100]).
Proof.
  split; [vm_compute; discriminate|].
  split; [vm_compute; reflexivity|].
  split; [vm_compute; discriminate|].
  vm_compute; reflexivity.
Qed.

(** C5, as the code has it.  Whenever [split_line] returns two parts, the
    offset has fallen into a segment [(p, q)] of the line: the first segment
    whose length is above the offset [r] that remains when the lengths of
    the segments before it have been subtracted one at a time.  The split
    point [s] is [p] when [r] is 0 and the point extrapolated from [p] by
    [r] towards [q] otherwise, and the second part is [s, q, ..].  When [s]
    differs from [p] the first part is [.., p, s], and joining the parts
    yields the vertices of the line with [s] inserted between [p] and [q];
    when [s] equals [p] the first part is [.., p], and joining the parts
    yields the line itself.  Two parts are returned for every offset that
    falls into a segment in this way, unless the segment is the first one
    and [s] equals [p]. *)
Theorem split_then_join
        (distance bearing : Coordinates -> Coordinates -> Q)
        (extrapolate : Coordinates -> Q -> Q -> Coordinates)
        (line : LineString) (d : Q) :
  (forall first second,
      split_line distance bearing extrapolate line d
      = Ok (Some first, Some second) ->
      exists pre p q post,
        line = pre ++ p :: q :: post
        /\ passes distance (pairwise (pre ++ [p])) d
        /\ remaining_after distance (pairwise (pre ++ [p])) d < distance p q
        /\ second
           = split_point bearing extrapolate p q
                         (remaining_after distance (pairwise (pre ++ [p])) d)
               :: q :: post
        /\ ((coord_eqb (split_point bearing extrapolate p q
                          (remaining_after distance (pairwise (pre ++ [p])) d))
                       p = false
             /\ first
                = pre ++ [p; split_point bearing extrapolate p q
                               (remaining_after distance (pairwise (pre ++ [p])) d)]
             /\ join_lines [first; second]
                = Ok (pre ++ p
                          :: split_point bearing extrapolate p q
                               (remaining_after distance (pairwise (pre ++ [p])) d)
                          :: q :: post))
            \/ (coord_eqb (split_point bearing extrapolate p q
                             (remaining_after distance (pairwise (pre ++ [p])) d))
                          p = true
                /\ first = pre ++ [p]
                /\ join_lines [first; second] = Ok line)))
  /\ (forall pre p q post,
         line = pre ++ p :: q :: post ->
         passes distance (pairwise (pre ++ [p])) d ->
         remaining_after distance (pairwise (pre ++ [p])) d < distance p q ->
         pre <> []
         \/ coord_eqb (split_point bearing extrapolate p q
                         (remaining_after distance (pairwise (pre ++ [p])) d))
                      p = false ->
         exists first second,
           split_line distance bearing extrapolate line d
           = Ok (Some first, Some second)).
Proof.
  split.
  - intros first second both.
    destruct (split_line_dichotomy distance line d)
      as [Hp|[pre [p [q [post [Hl [H2 H3]]]]]]].
    + rewrite (split_line_passes distance bearing extrapolate _ _ Hp) in both.
      discriminate.
    + subst line.
      rewrite (split_line_at distance bearing extrapolate _ _ _ _ _ H2 H3) in both.
      set (s := split_point bearing extrapolate p q
                  (remaining_after distance (pairwise (pre ++ [p])) d)) in *.
      exists pre, p, q, post.
      destruct (part_or_none (pre ++ [p] ++ (if coord_eqb s p then [] else [s])))
        as [[fp|]|e] eqn:Hp; cbn [bind] in both; try discriminate.
      injection both as <- <-.
      apply part_or_none_inv in Hp. destruct Hp as [-> Hlen].
      repeat split; try assumption.
      destruct (coord_eqb s p) eqn:Hsp.
      * right. rewrite app_nil_r in *.
        split; [exact Hsp|]. split; [reflexivity|].
        rewrite (join_two _ p).
        -- rewrite <- app_assoc. reflexivity.
        -- exact Hlen.
        -- apply last_item_app.
        -- exact Hsp.
      * left. split; [exact Hsp|]. split; [reflexivity|].
        rewrite (join_two _ s).
        -- rewrite <- app_assoc. reflexivity.
        -- exact Hlen.
        -- change (pre ++ [p] ++ [s]) with (pre ++ [p; s]).
           change (pre ++ [p; s]) with (pre ++ [p] ++ [s]).
           rewrite app_assoc. apply last_item_app.
        -- apply coord_eqb_refl.
  - intros pre p q post -> H2 H3 Hparts.
    rewrite (split_line_at distance bearing extrapolate _ _ _ _ _ H2 H3).
    rewrite part_or_none_some.
    + cbn [bind]. do 2 eexists. reflexivity.
    + destruct Hparts as [Hpre|Hsp].
      * destruct pre as [|a pre]; [congruence|].
        simpl. rewrite length_app. simpl. lia.
      * rewrite Hsp. rewrite !length_app. simpl. lia.
Qed.

Lemma split_then_join_witness :
  exists pre p q post,
    [pt 0 0; pt 0 100; pt 0 200] = pre ++ p :: q :: post
    /\ passes Grid.distance (pairwise (pre ++ [p])) 150
    /\ remaining_after Grid.distance (pairwise (pre ++ [p])) 150
       < Grid.distance p q
    /\ [pt 0 (100 + (150 - 100)); pt 0 200]
       = split_point Grid.bearing Grid.extrapolate p q
                     (remaining_after Grid.distance (pairwise (pre ++ [p])) 150)
           :: q :: post
    /\ ((coord_eqb (split_point Grid.bearing Grid.extrapolate p q
                      (remaining_after Grid.distance (pairwise (pre ++ [p])) 150))
                   p = false
         /\ [pt 0 0; pt 0 100; pt 0 (100 + (150 - 100))]
            = pre ++ [p; split_point Grid.bearing Grid.extrapolate p q
                           (remaining_after Grid.distance (pairwise (pre ++ [p])) 150)]
         /\ join_lines [[pt 0 0; pt 0 100; pt 0 (100 + (150 - 100))];
                        [pt 0 (100 + (150 - 100)); pt 0 200]]
            = Ok (pre ++ p
                      :: split_point Grid.bearing Grid.extrapolate p q
                           (remaining_after Grid.distance (pairwise (pre ++ [p])) 150)
                      :: q :: post))
        \/ (coord_eqb (split_point Grid.bearing Grid.extrapolate p q
                         (remaining_after Grid.distance (pairwise (pre ++ [p])) 150))
                      p = true
            /\ [pt 0 0; pt 0 100; pt 0 (100 + (150 - 100))] = pre ++ [p]
            /\ join_lines [[pt 0 0; pt 0 100; pt 0 (100 + (150 - 100))];
                           [pt 0 (100 + (150 - 100)); pt 0 200]]
               = Ok [pt 0 0; pt 0 100; pt 0 200])).
Proof.
  apply (proj1 (split_then_join Grid.distance Grid.bearing Grid.extrapolate
                                [pt 0 0; pt 0 100; pt 0 200] 150)).
  vm_compute. reflexivity.
Defined.

(** C5 fails as stated.  Splitting a straight line of 100 m in its middle
    and joining the parts yields three vertices, not the two of the line. *)
Lemma split_then_join_counterexample :
  0 < 50
  /\ 50 < line_string_length Grid.distance [pt 0 0; pt 0 100]
  /\ split_line Grid.distance Grid.bearing Grid.extrapolate [pt 0 0; pt 0 100] 50
     = Ok (Some [pt 0 0; pt 0 50], Some [pt 0 50; pt 0 100])
  /\ join_lines [[pt 0 0; pt 0 50]; [pt 0 50; pt 0 100]]
     = Ok [pt 0 0; pt 0 50; pt 0 100]
  /\ join_lines [[pt 0 0; pt 0 50]; [pt 0 50; pt 0 100]]
     <> Ok [pt 0 0; pt 0 100].
Proof.
  split; [vm_compute; reflexivity|].
  split; [vm_compute; reflexivity|].
  split; [vm_compute; reflexivity|].
  split; [vm_compute; reflexivity|].
  vm_compute; discriminate.
Qed.

(** C9.  Whenever [split_line] returns two parts, the first part ends in a
    coordinate equal to the one the second part starts with, and
    [join_lines] on the two parts returns a line string. *)
Theorem split_parts_are_connected
        (distance bearing : Coordinates -> Coordinates -> Q)
        (extrapolate : Coordinates -> Q -> Q -> Coordinates)
        (line first second : LineString) (d : Q)
        (both : split_line distance bearing extrapolate line d
                = Ok (Some first, Some second)) :
  exists l f joined,
    last_item first = Ok l
    /\ first_item second = Ok f
    /\ coord_eqb f l = true
    /\ join_lines [first; second] = Ok joined.
Proof.
  destruct (split_two_parts distance bearing extrapolate line first second d both)
    as [pre [p [q [post [s [_ [-> [[Hsp ->]|[Hsp [Hpre ->]]]]]]]]]].
  - assert (Hl : last_item (pre ++ [p; s]) = Ok s).
    { change (pre ++ [p; s]) with (pre ++ [p] ++ [s]).
      rewrite app_assoc. apply last_item_app. }
    exists s, s, ((pre ++ [p; s]) ++ q :: post).
    repeat split; try assumption; try apply coord_eqb_refl.
    apply (join_two _ s); try assumption; try apply coord_eqb_refl.
    rewrite length_app. simpl. lia.
  - exists p, s, ((pre ++ [p]) ++ q :: post).
    repeat split; try assumption; try apply last_item_app.
    apply (join_two _ p); try assumption; try apply last_item_app.
    destruct pre; [congruence|]. simpl. rewrite length_app. simpl. lia.
Qed.

Lemma split_parts_are_connected_witness :
  exists l f joined,
    last_item [pt 0 0; pt 0 50] = Ok l
    /\ first_item [pt 0 50; pt 0 100] = Ok f
    /\ coord_eqb f l = true
    /\ join_lines [[pt 0 0; pt 0 50]; [pt 0 50; pt 0 100]] = Ok joined.
Proof.
  apply (split_parts_are_connected Grid.distance Grid.bearing Grid.extrapolate
                                   [pt 0 0; pt 0 100] _ _ 50).
  vm_compute. reflexivity.
Defined.

Lemma join_lines_connected_or_error_witness :
  join_lines [[pt 0 0; pt 0 50]; [pt 0 51; pt 0 100]]
  = Raise (ValueError "Lines are not connected")
  /\ join_lines [[pt 0 0; pt 0 50]; [pt 0 50; pt 0 100]]
     = Ok (chain [[pt 0 0; pt 0 50]; [pt 0 50; pt 0 100]]).
Proof.
  split.
  - apply (proj1 (join_lines_connected_or_error
                    [[pt 0 0; pt 0 50]; [pt 0 51; pt 0 100]]
                    ltac:(repeat constructor))).
    exists [], [pt 0 0; pt 0 50], [pt 0 51; pt 0 100], [].
    split; reflexivity.
  - apply (proj2 (join_lines_connected_or_error
                    [[pt 0 0; pt 0 50]; [pt 0 50; pt 0 100]]
                    ltac:(repeat constructor))).
    intros pre a b post E.
    destruct pre as [|x [|y pre]]; simpl in E.
    + injection E as <- <- _. reflexivity.
    + injection E as _ E. discriminate.
    + injection E as _ _ E. destruct pre; discriminate.
Defined.

(** ** Points on lines *)

Lemma fdiv_nonzero (x y : Q) : ~ y == 0 -> fdiv x y = Ok (x / y).
Proof.
  intro H. unfold fdiv. apply Qeq_bool_false in H. rewrite H. reflexivity.
Qed.

Lemma fdiv_zero (x y : Q) : y == 0 -> fdiv x y = Raise ZeroDivisionError.
Proof.
  intro H. unfold fdiv. apply Qeq_bool_iff in H. rewrite H. reflexivity.
Qed.

Lemma fdiv_cases (x y : Q) :
  fdiv x y = Ok (x / y) \/ fdiv x y = Raise ZeroDivisionError.
Proof.
  unfold fdiv. destruct (Qeq_bool y 0); [right|left]; reflexivity.
Qed.

(** On a line of length 0 the division raises. *)
Lemma from_abs_offset_zero_length (line : Line.t) (m : Q) :
  Line.length line == 0 ->
  PointOnLine.from_abs_offset line m = Raise ZeroDivisionError.
Proof.
  intro H. unfold PointOnLine.from_abs_offset.
  destruct (Qle_bool 0 m); rewrite fdiv_zero by exact H; reflexivity.
Qed.

Lemma from_abs_offset_cases (line : Line.t) (m : Q) :
  (exists r, PointOnLine.from_abs_offset line m = Ok (PointOnLine.mk line r))
  \/ PointOnLine.from_abs_offset line m = Raise ZeroDivisionError.
Proof.
  unfold PointOnLine.from_abs_offset.
  destruct (Qle_bool 0 m).
  - destruct (fdiv_cases m (Line.length line)) as [-> | ->];
      [left; eexists; reflexivity|right; reflexivity].
  - destruct (fdiv_cases (Line.length line + m) (Line.length line)) as [-> | ->];
      [left; eexists; reflexivity|right; reflexivity].
Qed.

(** C8, as the code has it.  On a line whose length is not 0,
    [from_abs_offset] returns the point on the line at the relative offset
    [m / line.length] when [m] is not negative, and at
    [(line.length + m) / line.length] when it is: a negative offset is
    measured back from the end of the line.  It checks nothing: on a line of
    positive length an offset above the length gives a relative offset above
    1, and an offset below minus the length one below 0.  On a line of
    length 0 it returns no point: the division raises
    [ZeroDivisionError]. *)
Theorem from_abs_offset_relative (line : Line.t) (m : Q) :
  (~ Line.length line == 0 ->
   (0 <= m ->
    PointOnLine.from_abs_offset line m
    = Ok (PointOnLine.mk line (m / Line.length line)))
   /\ (m < 0 ->
       PointOnLine.from_abs_offset line m
       = Ok (PointOnLine.mk line ((Line.length line + m) / Line.length line))))
  /\ (0 < Line.length line ->
      (Line.length line < m ->
       exists r, PointOnLine.from_abs_offset line m = Ok (PointOnLine.mk line r)
                 /\ 1 < r)
      /\ (m < - Line.length line ->
          exists r, PointOnLine.from_abs_offset line m = Ok (PointOnLine.mk line r)
                    /\ r < 0))
  /\ (Line.length line == 0 ->
      PointOnLine.from_abs_offset line m = Raise ZeroDivisionError).
Proof.
  assert (Hnonneg : ~ Line.length line == 0 -> 0 <= m ->
            PointOnLine.from_abs_offset line m
            = Ok (PointOnLine.mk line (m / Line.length line))).
  { intros Hnz Hm. unfold PointOnLine.from_abs_offset.
    apply Qle_bool_iff in Hm. rewrite Hm, fdiv_nonzero by exact Hnz. reflexivity. }
  assert (Hneg : ~ Line.length line == 0 -> m < 0 ->
            PointOnLine.from_abs_offset line m
            = Ok (PointOnLine.mk line ((Line.length line + m) / Line.length line))).
  { intros Hnz Hm. unfold PointOnLine.from_abs_offset.
    apply Qle_bool_false in Hm. rewrite Hm, fdiv_nonzero by exact Hnz. reflexivity. }
  split; [|split; [|apply from_abs_offset_zero_length]].
  - intro Hnz. split; [apply Hnonneg|apply Hneg]; exact Hnz.
  - intro positive_length.
    assert (Hnz : ~ Line.length line == 0) by lra.
    split.
    + intro Hm. eexists. split; [apply Hnonneg; [exact Hnz|lra]|].
      apply Qlt_shift_div_l; lra.
    + intro Hm. eexists. split; [apply Hneg; [exact Hnz|lra]|].
      apply Qlt_shift_div_r; lra.
Qed.

Lemma from_abs_offset_relative_witness :
  PointOnLine.from_abs_offset road_b 25 = Ok (PointOnLine.mk road_b (25 / 100))
  /\ PointOnLine.from_abs_offset road_b (- (25))
     = Ok (PointOnLine.mk road_b ((100 + - (25)) / 100))
  /\ (exists r, PointOnLine.from_abs_offset road_b 150 = Ok (PointOnLine.mk road_b r)
                /\ 1 < r)
  /\ (exists r, PointOnLine.from_abs_offset road_b (- (150))
                = Ok (PointOnLine.mk road_b r) /\ r < 0)
  /\ PointOnLine.from_abs_offset road_z 25 = Raise ZeroDivisionError.
Proof.
  assert (Hnz : ~ Line.length road_b == 0) by (vm_compute; discriminate).
  assert (Hlen : 0 < Line.length road_b) by (vm_compute; reflexivity).
  split; [|split; [|split; [|split]]].
  - apply (proj1 (from_abs_offset_relative road_b 25) Hnz).
    vm_compute. discriminate.
  - apply (proj1 (from_abs_offset_relative road_b (- (25))) Hnz).
    vm_compute. reflexivity.
  - apply (proj1 (proj2 (from_abs_offset_relative road_b 150)) Hlen).
    vm_compute. reflexivity.
  - apply (proj1 (proj2 (from_abs_offset_relative road_b (- (150)))) Hlen).
    vm_compute. reflexivity.
  - apply (proj2 (proj2 (from_abs_offset_relative road_z 25))).
    vm_compute. reflexivity.
Defined.

(** C8 fails as stated.  On a line of length 0 [from_abs_offset] returns no
    point on the line, whatever the relative offset: it raises
    [ZeroDivisionError]. *)
Lemma from_abs_offset_zero_length_counterexample :
  Line.length road_z == 0
  /\ PointOnLine.from_abs_offset road_z 25 = Raise ZeroDivisionError
  /\ forall r, PointOnLine.from_abs_offset road_z 25 <> Ok (PointOnLine.mk road_z r).
Proof.
  split; [reflexivity|]. split; [reflexivity|].
  intros r H. discriminate.
Qed.

(** ** The line decoder *)

(** C7.  When the candidate list of the first LRP of a line location
    reference is empty, [decode_line] returns no line location: it raises the
    decoding error whose message names that LRP, as [dereference_path] does. *)
Theorem decode_line_no_candidates
        (MapReader Config DecoderObserver Candidate LineLocation : Type)
        (lrp_str : LocationReferencePoint -> string)
        (nominate_candidates :
           LocationReferencePoint -> MapReader -> Config ->
           option DecoderObserver -> bool -> GeoTool -> result (list Candidate))
        (match_tail :
           LocationReferencePoint -> list Candidate ->
           list LocationReferencePoint -> MapReader -> Config ->
           option DecoderObserver -> GeoTool -> result (list Route.t))
        (build_line_location :
           list Route.t -> LineLocationReference -> GeoTool -> result LineLocation)
        (reference : LineLocationReference) (reader : MapReader) (config : Config)
        (observer : option DecoderObserver) (geo_tool : GeoTool)
        (first_lrp : LocationReferencePoint) (rest : list LocationReferencePoint)
        (first_point : points reference = first_lrp :: rest)
        (no_candidate :
           nominate_candidates first_lrp reader config observer false geo_tool
           = Ok []) :
  decode_line lrp_str nominate_candidates match_tail build_line_location
              reference reader config observer geo_tool
  = Raise (LRDecodeError ("No candidates found for first LRP " ++ lrp_str first_lrp))
  /\ dereference_path lrp_str nominate_candidates match_tail
                      (points reference) reader config observer geo_tool
     = Raise (LRDecodeError ("No candidates found for first LRP "
                             ++ lrp_str first_lrp)).
Proof.
  unfold decode_line, dereference_path. rewrite first_point.
  cbn [first_item bind]. rewrite no_candidate. split; reflexivity.
Qed.

Lemma decode_line_no_candidates_witness :
  decode_line (Candidate := unit) (LineLocation := unit)
              (fun _ => "lrp"%string)
              (fun _ (_ : unit) (_ : unit) (_ : option unit) _ _ => Ok [])
              (fun _ _ _ _ _ _ _ => Ok [])
              (fun _ _ _ => Ok tt)
              (mkReference [mkLRP 0 0 0 0 0 0 100; mkLRP 0 1 0 0 0 0 0] 0 0)
              tt tt None Grid.tool
  = Raise (LRDecodeError "No candidates found for first LRP lrp").
Proof.
  apply (decode_line_no_candidates
           unit unit unit unit unit
           (fun _ => "lrp"%string)
           (fun _ _ _ _ _ _ => Ok [])
           (fun _ _ _ _ _ _ _ => Ok [])
           (fun _ _ _ => Ok tt)
           (mkReference [mkLRP 0 0 0 0 0 0 100; mkLRP 0 1 0 0 0 0 0] 0 0)
           tt tt None Grid.tool
           (mkLRP 0 0 0 0 0 0 100) [mkLRP 0 1 0 0 0 0 0]).
  - reflexivity.
  - reflexivity.
Defined.

(** ** Offset removal *)

(** The loop computes what [pops] describes; on a list that is not empty it
    either leaves lines or raises because it popped them all. *)
Lemma pop_loop_cases (lines : list Line.t) : forall r,
  lines <> [] ->
  (exists r' ls', pop_loop r lines = Ok (r', ls') /\ ls' <> []
                  /\ pops r lines r' ls')
  \/ (pop_loop r lines = Raise offset_too_large /\ exists r', pops r lines r' []).
Proof.
  induction lines as [|l rest IH]; intros r Hne; [congruence|].
  cbn [pop_loop]. destruct (Qle_bool (Line.length l) r) eqn:E.
  - apply Qle_bool_iff in E. destruct rest as [|l1 rest].
    + right. split; [reflexivity|]. eexists.
      apply pops_pop; [exact E|apply pops_done].
    + destruct (IH (r - Line.length l)) as [[r' [ls' [H1 [H2 H3]]]]|[H1 [r' H2]]];
        [discriminate| |].
      * left. exists r', ls'. repeat split; try assumption.
        apply pops_pop; assumption.
      * right. split; [exact H1|]. exists r'. apply pops_pop; assumption.
  - apply Qle_bool_false in E. left. exists r, (l :: rest).
    repeat split; [discriminate|]. apply pops_stop. exact E.
Qed.

(** The popping has one outcome. *)
Lemma pops_deterministic r ls r1 l1 :
  pops r ls r1 l1 -> forall r2 l2, pops r ls r2 l2 -> r1 = r2 /\ l1 = l2.
Proof.
  induction 1 as [r|r l ls Hlt|r l ls r' ls' Hle Hp IH]; intros r2 l2 H2.
  - inversion H2; subst. split; reflexivity.
  - inversion H2; subst; [split; reflexivity|lra].
  - inversion H2; subst; [lra|]. apply IH. assumption.
Qed.

Lemma lines_not_empty (path : Route.t) : Route.lines path <> [].
Proof.
  unfold Route.lines. intro H. apply app_eq_nil in H. destruct H; discriminate.
Qed.

Lemma rev_not_empty {A : Type} (l : list A) : l <> [] -> rev l <> [].
Proof.
  intros H E. apply H. rewrite <- (rev_involutive l), E. reflexivity.
Qed.

(** Both loops: either the popping empties the lines and the error is
    raised, or lines remain and no error is raised. *)
Lemma trim_lines_cases (path : Route.t) (p_off n_off : Q) :
  (trim_lines path p_off n_off = Raise offset_too_large
   /\ popping_empties path p_off n_off)
  \/ (exists rp rn start_line lines end_line,
         trim_lines path p_off n_off = Ok (rp, rn, start_line, lines, end_line)
         /\ ~ popping_empties path p_off n_off).
Proof.
  unfold trim_lines, popping_empties.
  set (p := p_off + Route.absolute_start_offset path).
  set (n := n_off + Route.absolute_end_offset path).
  destruct (pop_loop_cases (Route.lines path) p (lines_not_empty path))
    as [[rp [front [H1 [H2 H3]]]]|[H1 [r' H2]]].
  - rewrite H1. cbn [bind].
    destruct (pop_loop_cases (rev front) n (rev_not_empty _ H2))
      as [[rn [back [K1 [K2 K3]]]]|[K1 [r' K2]]].
    + right. rewrite K1. cbn [bind].
      assert (Hno : ~ ((exists r, pops p (Route.lines path) r [])
                       \/ (exists rp0 front0 r,
                              pops p (Route.lines path) rp0 front0
                              /\ front0 <> [] /\ pops n (rev front0) r []))).
      { intros [[r Hr]|[rp0 [front0 [r [Hf [_ Hr]]]]]].
        - destruct (pops_deterministic _ _ _ _ H3 _ _ Hr) as [_ E]. congruence.
        - destruct (pops_deterministic _ _ _ _ H3 _ _ Hf) as [_ E]. subst front0.
          destruct (pops_deterministic _ _ _ _ K3 _ _ Hr) as [_ E]. congruence. }
      pose proof (rev_not_empty _ K2) as Hrev.
      destruct (rev back) as [|start_line ls]; [congruence|].
      destruct (rev ls) as [|end_line ?];
        do 5 eexists; (split; [reflexivity|exact Hno]).
    + left. rewrite K1. cbn [bind]. split; [reflexivity|].
      right. exists rp, front, r'. repeat split; assumption.
  - left. rewrite H1. cbn [bind]. split; [reflexivity|].
    left. exists r'. exact H2.
Qed.

(** C2.  Both variants of [remove_offsets] pop the first line while the
    positive offset plus the start offset of the route is at least its
    length, then the last line in the same way for the negative offset, and
    they raise the error for too large an offset exactly when this popping
    empties the line list. *)
Theorem remove_offsets_too_large_iff (path : Route.t) (p_off n_off : Q)
        (geo_tool : GeoTool) :
  (path_math.remove_offsets path p_off n_off geo_tool
   = Raise (LRDecodeError "Offset is bigger than line location path")
   <-> popping_empties path p_off n_off)
  /\ (tools.remove_offsets path p_off n_off
      = Raise (LRDecodeError "Offset is bigger than line location path")
      <-> popping_empties path p_off n_off).
Proof.
  unfold path_math.remove_offsets, tools.remove_offsets.
  destruct (trim_lines_cases path p_off n_off)
    as [[H1 H2]|[rp [rn [start_line [lines [end_line [H1 H2]]]]]]];
    rewrite H1; cbn [bind].
  - split; split; intro; try assumption; reflexivity.
  - split; split; intro H; try contradiction; exfalso; revert H.
    + destruct (from_abs_offset_cases start_line rp) as [[r ->]| ->];
        cbn [bind]; [|discriminate].
      destruct (from_abs_offset_cases end_line (Line.length end_line - rn))
        as [[r' ->]| ->]; cbn [bind]; discriminate.
    + destruct (fdiv_cases rp (Line.length start_line)) as [-> | ->];
        cbn [bind]; [|discriminate].
      destruct (fdiv_cases rn (Line.length end_line)) as [-> | ->];
        cbn [bind]; discriminate.
Qed.

(** What the shared part hands to the two variants: the legacy variant
    builds the route from it, the variant with a geo tool passes a fourth
    argument to [Route], which has three fields. *)
Lemma remove_offsets_after_trim (path : Route.t) (p_off n_off : Q) (geo_tool : GeoTool)
      rp rn start_line lines end_line :
  trim_lines path p_off n_off = Ok (rp, rn, start_line, lines, end_line) ->
  ~ Line.length start_line == 0 ->
  ~ Line.length end_line == 0 ->
  tools.remove_offsets path p_off n_off
  = Ok (Route.mk (PointOnLine.mk start_line (rp / Line.length start_line))
                 lines
                 (PointOnLine.mk end_line (1 - rn / Line.length end_line)))
  /\ path_math.remove_offsets path p_off n_off geo_tool = Raise TypeError.
Proof.
  intros Ht Hs He. unfold tools.remove_offsets, path_math.remove_offsets.
  rewrite Ht. cbn [bind]. split.
  - rewrite !fdiv_nonzero by assumption. reflexivity.
  - unfold PointOnLine.from_abs_offset.
    destruct (Qle_bool 0 rp);
      destruct (Qle_bool 0 (Line.length end_line - rn));
      rewrite !fdiv_nonzero by assumption; reflexivity.
Qed.

(** The variant with a geo tool returns no route at all. *)
Lemma remove_offsets_never_returns (path : Route.t) (p_off n_off : Q)
      (geo_tool : GeoTool) :
  exists e, path_math.remove_offsets path p_off n_off geo_tool = Raise e.
Proof.
  unfold path_math.remove_offsets.
  destruct (trim_lines path p_off n_off) as [[[[[rp rn] start_line] lines] end_line]|e];
    cbn [bind]; [|eexists; reflexivity].
  destruct (from_abs_offset_cases start_line rp) as [[r ->]| ->];
    cbn [bind]; [|eexists; reflexivity].
  destruct (from_abs_offset_cases end_line (Line.length end_line - rn))
    as [[r' ->]| ->]; cbn [bind]; eexists; reflexivity.
Qed.

(** C1.  On the route over two roads with no offsets to remove,
    [remove_offsets] with a geo tool does not return the route from the
    start of the first road to the end of the second: the call of [Route]
    with four arguments raises [TypeError]. *)
Theorem remove_offsets_raises_type_error :
  path_math.remove_offsets route_ab 0 0 Grid.tool = Raise TypeError.
Proof.
  vm_compute. reflexivity.
Qed.

(** ** Candidate bearing *)

(** The guard of [compute_bearing] compares a method with a number and never
    holds. *)
Lemma compute_bearing_guard (candidate : PointOnLine.t) (is_last_lrp : bool) :
  (negb is_last_lrp && eq_float (attr_position candidate) 1)
  || (is_last_lrp && eq_float (attr_position candidate) 0) = false.
Proof.
  destruct is_last_lrp; reflexivity.
Qed.

(** C3.  For the last LRP and a candidate at the start of a north-bound road
    with three vertices, [compute_bearing] does not return 0: the bearing
    point lies 20 m before the start of the road and the result is 180. *)
Theorem compute_bearing_at_line_start :
  exists bear,
    compute_bearing lrp_a (PointOnLine.mk road_a 0) true 20 Grid.tool = Ok bear
    /\ bear == 180.
Proof.
  eexists. split; vm_compute; reflexivity.
Qed.

(** * Further properties *)

(** ** The lines of a route *)

Lemma lines_body_last (init : list Line.t) (lst line : Line.t) :
  Route.lines_body (init ++ [lst]) line
  = if (Line.line_id line =? Line.line_id lst)%Z then init ++ [lst]
    else (init ++ [lst]) ++ [line].
Proof.
  unfold Route.lines_body. rewrite rev_unit.
  destruct (Line.line_id line =? Line.line_id lst)%Z; reflexivity.
Qed.

Lemma collapsed_snoc (init : list Line.t) (lst x : Line.t) :
  collapsed (init ++ [lst]) -> Line.line_id lst <> Line.line_id x ->
  collapsed ((init ++ [lst]) ++ [x]).
Proof.
  intros H Hx. induction init as [|a init IH].
  - simpl. split; [exact Hx|exact I].
  - destruct init as [|b init].
    + simpl in *. destruct H as [H _]. repeat split; assumption.
    + change (collapsed (a :: b :: (init ++ [lst]) ++ [x])).
      change (collapsed (a :: b :: init ++ [lst])) in H.
      destruct H as [Hab H]. split; [exact Hab|]. apply IH. exact H.
Qed.

Lemma collapsed_replace_last (init : list Line.t) (a b : Line.t) :
  collapsed (init ++ [a]) -> Line.line_id a = Line.line_id b ->
  collapsed (init ++ [b]).
Proof.
  intros H Hab. induction init as [|x init IH].
  - exact I.
  - destruct init as [|y init].
    + simpl in *. destruct H as [H _]. split; [congruence|exact I].
    + change (collapsed (x :: y :: init ++ [b])).
      change (collapsed (x :: y :: init ++ [a])) in H.
      destruct H as [Hxy H]. split; [exact Hxy|]. apply IH. exact H.
Qed.

(** The loop of [lines] only appends, keeps neighbours distinct and takes
    its lines from the lines in between. *)
Lemma lines_fold (xs : list Line.t) : forall r,
  r <> [] -> collapsed r ->
  exists t, fold_left Route.lines_body xs r = r ++ t
            /\ collapsed (r ++ t) /\ incl t xs.
Proof.
  induction xs as [|x xs IH]; intros r Hne Hc.
  - exists []. rewrite app_nil_r. repeat split; [assumption|apply incl_refl].
  - destruct (exists_last Hne) as [init [lst ->]].
    cbn [fold_left]. rewrite lines_body_last.
    destruct (Line.line_id x =? Line.line_id lst)%Z eqn:E.
    + destruct (IH (init ++ [lst]) Hne Hc) as [t [H1 [H2 H3]]].
      exists t. repeat split; try assumption. apply incl_tl. exact H3.
    + apply Z.eqb_neq in E.
      assert (Hne' : (init ++ [lst]) ++ [x] <> [])
        by (intro H; apply app_eq_nil in H; destruct H; discriminate).
      destruct (IH _ Hne' (collapsed_snoc _ _ _ Hc (not_eq_sym E)))
        as [t [H1 [H2 H3]]].
      exists (x :: t). rewrite H1. rewrite <- !app_assoc in *.
      repeat split; try assumption; try reflexivity.
      apply incl_cons; [left; reflexivity|apply incl_tl; exact H3].
Qed.

(** The structure of the lines of a route. *)
Lemma lines_structure (path : Route.t) :
  collapsed (Route.lines path)
  /\ last_item (Route.lines path) = Ok (PointOnLine.line (Route.end_ path))
  /\ incl (Route.lines path)
          (PointOnLine.line (Route.start path)
             :: Route.path_inbetween path ++ [PointOnLine.line (Route.end_ path)])
  /\ (Line.line_id (PointOnLine.line (Route.start path))
      <> Line.line_id (PointOnLine.line (Route.end_ path)) ->
      exists mid,
        Route.lines path
        = PointOnLine.line (Route.start path)
            :: mid ++ [PointOnLine.line (Route.end_ path)]).
Proof.
  unfold Route.lines.
  set (s := PointOnLine.line (Route.start path)).
  set (e := PointOnLine.line (Route.end_ path)).
  destruct (lines_fold (Route.path_inbetween path) [s]) as [t [H1 [H2 H3]]];
    [discriminate|exact I|].
  rewrite H1. clear H1.
  assert (Hne : [s] ++ t <> []) by discriminate.
  destruct (exists_last Hne) as [init [lst Hr]].
  rewrite Hr in *. rewrite rev_unit.
  assert (Hincl : incl (init ++ [lst]) (s :: Route.path_inbetween path ++ [e])).
  { rewrite <- Hr. intros x [<-|Hx]; [left; reflexivity|].
    right. apply in_or_app. left. apply H3. exact Hx. }
  destruct (Line.line_id e =? Line.line_id lst)%Z eqn:E.
  - apply Z.eqb_eq in E. rewrite removelast_last. repeat split.
    + apply (collapsed_replace_last init lst e); [exact H2|congruence].
    + apply last_item_app.
    + intros x Hx. apply in_app_or in Hx. destruct Hx as [Hx|[<-|[]]].
      * apply Hincl. apply in_or_app. left. exact Hx.
      * right. apply in_or_app. right. left. reflexivity.
    + intro Hse. destruct init as [|a init].
      * simpl in Hr. injection Hr as Hs _. subst lst. congruence.
      * simpl in Hr. injection Hr as Hs _. subst a. exists init. reflexivity.
  - apply Z.eqb_neq in E. repeat split.
    + apply collapsed_snoc; [exact H2|congruence].
    + apply last_item_app.
    + intros x Hx. apply in_app_or in Hx. destruct Hx as [Hx|[<-|[]]].
      * apply Hincl. exact Hx.
      * right. apply in_or_app. right. left. reflexivity.
    + intros _. exists t. rewrite <- Hr. reflexivity.
Qed.

(** X1.  The lines of a route are collapsed (no two neighbours share an id),
    end with the line of the end point, consist of the start line, lines in
    between and the end line only, and start with the line of the start
    point when start and end lie on lines with different ids. *)
Theorem Route_lines_collapsed (path : Route.t) :
  collapsed (Route.lines path)
  /\ last_item (Route.lines path) = Ok (PointOnLine.line (Route.end_ path))
  /\ incl (Route.lines path)
          (PointOnLine.line (Route.start path)
             :: Route.path_inbetween path ++ [PointOnLine.line (Route.end_ path)])
  /\ (Line.line_id (PointOnLine.line (Route.start path))
      <> Line.line_id (PointOnLine.line (Route.end_ path)) ->
      exists mid,
        Route.lines path
        = PointOnLine.line (Route.start path)
            :: mid ++ [PointOnLine.line (Route.end_ path)]).
Proof.
  exact (lines_structure path).
Qed.

(** ** Length of a route *)

(** X2.  For a route whose start offset is not negative and whose end offset
    is at most 1, the length is the length of its lines minus the distance
    before the start point and the distance after the end point: the two
    guards of [Route.length] only skip subtractions of 0. *)
Theorem Route_length_formula (path : Route.t)
        (start_ok : 0 <= PointOnLine.relative_offset (Route.start path))
        (end_ok : PointOnLine.relative_offset (Route.end_ path) <= 1) :
  Route_length path
  == path_length (Route.lines path)
     - Route.absolute_start_offset path - Route.absolute_end_offset path.
Proof.
  unfold Route_length, Route.absolute_start_offset, Route.absolute_end_offset,
    PointOnLine.distance_from_start, PointOnLine.distance_to_end.
  set (rs := PointOnLine.relative_offset (Route.start path)) in *.
  set (re := PointOnLine.relative_offset (Route.end_ path)) in *.
  set (ls := Line.length (PointOnLine.line (Route.start path))).
  set (le := Line.length (PointOnLine.line (Route.end_ path))).
  assert (Hs : Qlt_bool 0 rs = false -> rs * ls == 0).
  { intro H. apply Qlt_bool_false in H.
    assert (E : rs == 0) by lra. rewrite E. lra. }
  assert (He : Qlt_bool re 1 = false -> (1 - re) * le == 0).
  { intro H. apply Qlt_bool_false in H.
    assert (E : 1 - re == 0) by lra. rewrite E. lra. }
  destruct (Qlt_bool 0 rs); destruct (Qlt_bool re 1);
    try specialize (Hs eq_refl); try specialize (He eq_refl); lra.
Qed.

Lemma Route_length_formula_witness :
  Route_length route_ab
  == path_length (Route.lines route_ab)
     - Route.absolute_start_offset route_ab - Route.absolute_end_offset route_ab.
Proof.
  apply (Route_length_formula route_ab); vm_compute; discriminate.
Defined.

(** ** Candidate bearing *)

Lemma fmod_360_range (x : Q) : 0 <= fmod x 360 /\ fmod x 360 < 360.
Proof.
  unfold fmod.
  pose proof (Qfloor_le (x / 360)) as Hlo.
  pose proof (Qlt_floor (x / 360)) as Hhi.
  rewrite inject_Z_plus in Hhi.
  assert (E : x == 360 * (x / 360)) by (field; discriminate).
  set (q := x / 360) in *. set (f := inject_Z (Qfloor q)) in *.
  change (inject_Z 1) with 1 in Hhi.
  split; lra.
Qed.

(** X4.  Whatever the geo tool, a bearing that [compute_bearing] returns lies
    in the range from 0 to 360, both ends included.  (The remainder that
    Python computes for a float lies below 360 before it is rounded; the
    rounded result can be 360.0 itself.) *)
Theorem compute_bearing_range (lrp : LocationReferencePoint)
        (candidate : PointOnLine.t) (is_last_lrp : bool) (bear_dist : Q)
        (geo_tool : GeoTool) (bear : Q)
        (returned : compute_bearing lrp candidate is_last_lrp bear_dist geo_tool
                    = Ok bear) :
  0 <= bear /\ bear <= 360.
Proof.
  unfold compute_bearing in returned.
  rewrite compute_bearing_guard in returned.
  destruct (gt_interpolate geo_tool (Line.coordinates (PointOnLine.line candidate))
                           (PointOnLine.distance_from_start candidate))
    as [origin|e]; cbn [bind] in returned; [|discriminate].
  match type of returned with
  | bind ?m _ = _ => destruct m as [bearing_point|e]
  end; cbn [bind] in returned; [|discriminate].
  injection returned as <-.
  match goal with
  | |- 0 <= fmod ?x 360 /\ _ => pose proof (fmod_360_range x) as [Hlo Hhi]
  end.
  split; lra.
Qed.

Lemma compute_bearing_range_witness :
  exists bear,
    compute_bearing lrp_a (PointOnLine.mk road_a (1 / 2)) false 20 Grid.tool
    = Ok bear
    /\ 0 <= bear /\ bear <= 360.
Proof.
  eexists. split; [vm_compute; reflexivity|].
  apply (compute_bearing_range lrp_a (PointOnLine.mk road_a (1 / 2)) false 20
                               Grid.tool).
  vm_compute. reflexivity.
Defined.

(** X5.  With the WGS84 geo tool [compute_bearing] returns a bearing for
    every candidate on a line of at least two coordinates, and raises
    [IndexError] for a candidate on a line with fewer. *)
Theorem compute_bearing_returns
        (distance bearing : Coordinates -> Coordinates -> Q)
        (extrapolate : Coordinates -> Q -> Q -> Coordinates)
        (lrp : LocationReferencePoint) (candidate : PointOnLine.t)
        (is_last_lrp : bool) (bear_dist : Q) :
  ((2 <= List.length (Line.coordinates (PointOnLine.line candidate)))%nat ->
   exists bear,
     compute_bearing lrp candidate is_last_lrp bear_dist
                     (WGS84GeoTool distance bearing extrapolate) = Ok bear)
  /\ ((List.length (Line.coordinates (PointOnLine.line candidate)) < 2)%nat ->
      compute_bearing lrp candidate is_last_lrp bear_dist
                      (WGS84GeoTool distance bearing extrapolate)
      = Raise IndexError).
Proof.
  unfold compute_bearing. rewrite compute_bearing_guard.
  cbn [gt_interpolate gt_bearing WGS84GeoTool].
  set (cs := Line.coordinates (PointOnLine.line candidate)).
  split; intro Hlen.
  - destruct (interpolate_returns distance bearing extrapolate cs
                (PointOnLine.distance_from_start candidate) Hlen) as [origin ->].
    cbn [bind].
    destruct (List.length cs =? 2)%nat eqn:E2.
    + destruct cs as [|a [|b [|c cs']]]; simpl in E2; try discriminate.
      destruct is_last_lrp; cbn [first_item last_item bind];
        eexists; reflexivity.
    + destruct is_last_lrp.
      * destruct (interpolate_returns distance bearing extrapolate cs
                    (PointOnLine.distance_from_start candidate - bear_dist) Hlen)
          as [bp ->].
        cbn [bind]. eexists; reflexivity.
      * destruct (interpolate_returns distance bearing extrapolate cs
                    (PointOnLine.distance_from_start candidate + bear_dist) Hlen)
          as [bp ->].
        cbn [bind]. eexists; reflexivity.
  - rewrite (interpolate_short distance bearing extrapolate cs _ Hlen).
    reflexivity.
Qed.

Lemma compute_bearing_returns_witness :
  (exists bear,
      compute_bearing lrp_a (PointOnLine.mk road_a (1 / 2)) true 20 Grid.tool
      = Ok bear)
  /\ compute_bearing lrp_a (PointOnLine.mk (Line.mk 3 [pt 0 0] 0) 0) true 20
                     Grid.tool
     = Raise IndexError.
Proof.
  split.
  - apply (compute_bearing_returns Grid.distance Grid.bearing Grid.extrapolate
             lrp_a (PointOnLine.mk road_a (1 / 2)) true 20).
    simpl. lia.
  - apply (compute_bearing_returns Grid.distance Grid.bearing Grid.extrapolate
             lrp_a (PointOnLine.mk (Line.mk 3 [pt 0 0] 0) 0) true 20).
    simpl. lia.
Defined.

(** ** More on [split_line] and [interpolate] *)

Lemma first_item_app {A : Type} (a : A) (l t : list A) :
  first_item ((a :: l) ++ t) = Ok a.
Proof. reflexivity. Qed.

Lemma last_item_app_cons {A : Type} (l : list A) (x : A) (t : list A) :
  last_item (l ++ x :: t) = last_item (x :: t).
Proof.
  induction l as [|a l IH]; [reflexivity|].
  simpl. destruct (l ++ x :: t) eqn:E; [destruct l; discriminate|exact IH].
Qed.

(** X6.  [split_line] never raises and never returns two missing parts: a
    line that the offset does not cut, be it empty or a single point, comes
    back whole as the first part. *)
Theorem split_line_returns_a_part
        (distance bearing : Coordinates -> Coordinates -> Q)
        (extrapolate : Coordinates -> Q -> Q -> Coordinates)
        (line : LineString) (d : Q) :
  exists first second,
    split_line distance bearing extrapolate line d = Ok (first, second)
    /\ ~ (first = None /\ second = None).
Proof.
  destruct (split_line_cases distance bearing extrapolate line d)
    as [[H1 _]|[pre [p [q [post [s [r [_ [_ [_ [_ [_ H6]]]]]]]]]]]].
  - exists (Some line), None. split; [exact H1|]. intros [H _]. discriminate.
  - rewrite H6. unfold part_or_none.
    destruct (1 <? List.length (pre ++ [p] ++ (if coord_eqb s p then [] else [s])))%nat
      eqn:E.
    + apply Nat.ltb_lt in E.
      destruct (pre ++ [p] ++ (if coord_eqb s p then [] else [s]))
        as [|a [|b l]] eqn:El; simpl in E; try lia.
      cbn [LineString_new bind]. do 2 eexists. split; [reflexivity|].
      intros [H _]. discriminate.
    + cbn [bind]. do 2 eexists. split; [reflexivity|].
      intros [_ H]. discriminate.
Qed.

(** X7.  The parts that [split_line] returns keep the ends of the line: a
    first part starts with the first vertex of the line and a second part
    ends with its last vertex. *)
Theorem split_line_keeps_ends
        (distance bearing : Coordinates -> Coordinates -> Q)
        (extrapolate : Coordinates -> Q -> Q -> Coordinates)
        (line : LineString) (d : Q) (first second : option LineString)
        (parts : split_line distance bearing extrapolate line d
                 = Ok (first, second)) :
  (forall part, first = Some part -> first_item part = first_item line)
  /\ (forall part, second = Some part -> last_item part = last_item line).
Proof.
  destruct (split_line_cases distance bearing extrapolate line d)
    as [[H1 _]|[pre [p [q [post [s [r [Hl [_ [_ [_ [_ H6]]]]]]]]]]]].
  - rewrite H1 in parts. injection parts as <- <-.
    split; intros part H; [injection H as <-; reflexivity|discriminate].
  - rewrite H6 in parts.
    destruct (part_or_none (pre ++ [p] ++ (if coord_eqb s p then [] else [s])))
      as [fp|e] eqn:Hp; cbn [bind] in parts; [|discriminate].
    injection parts as <- <-. split; intros part H.
    + subst fp. apply part_or_none_inv in Hp. destruct Hp as [-> _].
      rewrite Hl. destruct pre; reflexivity.
    + injection H as <-. rewrite Hl.
      rewrite (last_item_app_cons pre p (q :: post)). reflexivity.
Qed.

Lemma split_line_keeps_ends_witness :
  (forall part, Some [pt 0 0; pt 0 50] = Some part ->
                first_item part = first_item [pt 0 0; pt 0 100])
  /\ (forall part, Some [pt 0 50; pt 0 100] = Some part ->
                   last_item part = last_item [pt 0 0; pt 0 100]).
Proof.
  apply (split_line_keeps_ends Grid.distance Grid.bearing Grid.extrapolate
                               [pt 0 0; pt 0 100] 50).
  vm_compute. reflexivity.
Defined.

Section SplitPoint.

Variable distance : Coordinates -> Coordinates -> Q.
Variable bearing : Coordinates -> Coordinates -> Q.
Variable extrapolate : Coordinates -> Q -> Q -> Coordinates.

Local Abbreviation interp := (interpolate distance bearing extrapolate).
Local Abbreviation interp_loop := (interpolate_loop distance bearing extrapolate).
Local Abbreviation body := (split_body distance bearing extrapolate).
Local Abbreviation split := (split_line distance bearing extrapolate).

(** On segments of positive length the loops of [split_line] and of
    [interpolate] stop in the same segment with the same point. *)
Lemma split_scan_interpolate segs : forall fp rem st s,
  (forall a b, In (a, b) segs -> 0 < distance a b) ->
  for_each body (mkSplit fp [] rem None) segs = Ok st ->
  splitpoint st = Some s ->
  interp_loop segs rem = Some s.
Proof.
  induction segs as [|[a b] segs IH]; intros fp rem st s Hpos Hrun Hs.
  - simpl in Hrun. injection Hrun as <-. discriminate.
  - cbn [for_each] in Hrun. unfold split_body at 1 in Hrun.
    cbn [splitpoint remaining_offset first_part second_part] in Hrun.
    cbn [interpolate_loop].
    destruct (Qlt_bool rem (distance a b)) eqn:E.
    + pose proof E as Hlt. apply Qlt_bool_true in Hlt.
      rewrite (interpolate_segment distance bearing extrapolate a b rem Hlt) in Hrun.
      cbn [bind] in Hrun. rewrite split_after in Hrun.
      injection Hrun as <-. cbn [splitpoint] in Hs. injection Hs as <-.
      destruct (Qeq_bool rem 0); reflexivity.
    + cbn [bind] in Hrun. apply Qlt_bool_false in E.
      pose proof (Hpos a b (or_introl eq_refl)) as Hab.
      assert (E0 : Qeq_bool rem 0 = false) by (apply Qeq_bool_false; lra).
      rewrite E0. apply (IH (fp ++ [a]) _ st s); try assumption.
      intros x y Hin. apply Hpos. right. exact Hin.
Qed.

Lemma split_point_is_interpolated (line : LineString) (d : Q)
      (first : option LineString) (second : LineString) :
  (forall a b, In (a, b) (pairwise line) -> 0 < distance a b) ->
  split line d = Ok (first, Some second) ->
  exists s, first_item second = Ok s /\ interp line d = Ok s.
Proof.
  intros Hpos Hsplit. unfold split_line in Hsplit.
  destruct (split_scan distance bearing extrapolate (pairwise line) [] d)
    as [[st [H1 [H2 _]]]
       |[pre [p [q [post [s [r [r' [_ [_ [_ [_ [_ H6]]]]]]]]]]]]].
  - rewrite H1 in Hsplit. cbn [bind] in Hsplit. rewrite H2 in Hsplit.
    discriminate.
  - pose proof (split_scan_interpolate (pairwise line) [] d _ s Hpos H6 eq_refl)
      as Hloop.
    rewrite H6 in Hsplit. cbn [bind splitpoint first_part second_part] in Hsplit.
    destruct (part_or_none ([] ++ map fst pre ++ [p]
                               ++ (if coord_eqb s p then [] else [s])))
      as [fp|e]; cbn [bind] in Hsplit; [|discriminate].
    rewrite part_or_none_some in Hsplit by (simpl; lia).
    cbn [bind] in Hsplit. injection Hsplit as _ <-.
    exists s. split; [reflexivity|].
    unfold interpolate. rewrite Hloop. reflexivity.
Qed.

End SplitPoint.

(** X8.  With the WGS84 geo tool, on a line whose segments all have a
    positive length, the second part that [PointOnLine.split] returns starts
    at the coordinate that [PointOnLine.position] returns. *)
Theorem position_is_split_point
        (distance bearing : Coordinates -> Coordinates -> Q)
        (extrapolate : Coordinates -> Q -> Q -> Coordinates)
        (point : PointOnLine.t)
        (first : option LineString) (second : LineString)
        (positive : forall a b,
            In (a, b) (pairwise (Line.geometry (PointOnLine.line point))) ->
            0 < distance a b)
        (parts : PointOnLine.split point (WGS84GeoTool distance bearing extrapolate)
                 = Ok (first, Some second)) :
  exists s,
    first_item second = Ok s
    /\ PointOnLine.position point (WGS84GeoTool distance bearing extrapolate)
       = Ok s.
Proof.
  unfold PointOnLine.split, PointOnLine.position, Line.coordinates in *.
  cbn [gt_split_line gt_interpolate WGS84GeoTool] in *.
  apply (split_point_is_interpolated distance bearing extrapolate _ _ first second);
    assumption.
Qed.

Lemma position_is_split_point_witness :
  exists s,
    first_item [pt 0 (200 # 4); pt 0 100; pt 0 200] = Ok s
    /\ PointOnLine.position (PointOnLine.mk road_a (1 / 4)) Grid.tool = Ok s.
Proof.
  apply (position_is_split_point Grid.distance Grid.bearing Grid.extrapolate
                                 (PointOnLine.mk road_a (1 / 4))
                                 (Some [pt 0 0; pt 0 (200 # 4)])).
  - intros a b [H|[H|[]]]; injection H as <- <-; vm_compute; reflexivity.
  - vm_compute. reflexivity.
Defined.

(** ** More on offset removal *)

Lemma path_length_acc (lines : list Line.t) (acc : Q) :
  fold_left (fun acc line => acc + Line.length line) lines acc
  == acc + path_length lines.
Proof.
  unfold path_length. revert acc.
  induction lines as [|l lines IH]; intro acc; simpl; [lra|].
  rewrite (IH (acc + Line.length l)), (IH (0 + Line.length l)). lra.
Qed.

Lemma path_length_cons (l : Line.t) (lines : list Line.t) :
  path_length (l :: lines) == Line.length l + path_length lines.
Proof.
  unfold path_length at 1. simpl. rewrite path_length_acc. lra.
Qed.

Lemma path_length_app (xs ys : list Line.t) :
  path_length (xs ++ ys) == path_length xs + path_length ys.
Proof.
  induction xs as [|x xs IH]; simpl.
  - unfold path_length at 2. simpl. lra.
  - rewrite !path_length_cons, IH. lra.
Qed.

Lemma path_length_rev (xs : list Line.t) : path_length (rev xs) == path_length xs.
Proof.
  induction xs as [|x xs IH]; simpl; [reflexivity|].
  rewrite path_length_app, !path_length_cons, IH.
  change (path_length []) with 0. lra.
Qed.

(** What is popped accounts for the offset that is used up. *)
Lemma pops_conservation r ls r' ls' :
  pops r ls r' ls' ->
  exists popped, ls = popped ++ ls' /\ r == r' + path_length popped.
Proof.
  induction 1 as [r|r l ls Hlt|r l ls r' ls' Hle Hp IH].
  - exists []. split; [reflexivity|]. unfold path_length. simpl. lra.
  - exists []. split; [reflexivity|]. unfold path_length. simpl. lra.
  - destruct IH as [popped [-> Hr]]. exists (l :: popped).
    split; [reflexivity|]. rewrite path_length_cons. lra.
Qed.

(** The popping stops below the length of the first line that is left. *)
Lemma pops_stops r ls r' l t : pops r ls r' (l :: t) -> r' < Line.length l.
Proof.
  intro H. remember (l :: t) as ls' eqn:E.
  induction H as [r|r l0 ls Hlt|r l0 ls r' ls' Hle Hp IH].
  - discriminate.
  - injection E as -> ->. exact Hlt.
  - apply IH. exact E.
Qed.

Lemma pops_nonneg r ls r' ls' : pops r ls r' ls' -> 0 <= r -> 0 <= r'.
Proof.
  induction 1 as [r|r l ls Hlt|r l ls r' ls' Hle Hp IH]; intro H; try assumption.
  apply IH. lra.
Qed.

(** What the two loops leave: the lines of the route are the lines popped at
    the front, the lines kept and the lines popped at the back; the offsets
    are used up by the popped lines, and what remains of them lies inside
    the first and the last line kept. *)
Lemma trim_lines_ok (path : Route.t) (p_off n_off : Q) rp rn s mid e :
  trim_lines path p_off n_off = Ok (rp, rn, s, mid, e) ->
  exists front back,
    (Route.lines path = front ++ s :: mid ++ e :: back
     \/ (Route.lines path = front ++ s :: back /\ e = s /\ mid = []))
    /\ p_off + Route.absolute_start_offset path == rp + path_length front
    /\ n_off + Route.absolute_end_offset path == rn + path_length back
    /\ rp < Line.length s
    /\ rn < Line.length e
    /\ (0 <= p_off + Route.absolute_start_offset path -> 0 <= rp)
    /\ (0 <= n_off + Route.absolute_end_offset path -> 0 <= rn).
Proof.
  unfold trim_lines.
  set (p := p_off + Route.absolute_start_offset path).
  set (n := n_off + Route.absolute_end_offset path).
  destruct (pop_loop_cases (Route.lines path) p (lines_not_empty path))
    as [[rp0 [kept [H1 [H2 H3]]]]|[H1 _]]; rewrite H1; cbn [bind];
    [|discriminate].
  destruct (pop_loop_cases (rev kept) n (rev_not_empty _ H2))
    as [[rn0 [back0 [K1 [K2 K3]]]]|[K1 _]]; rewrite K1; cbn [bind];
    [|discriminate].
  destruct (pops_conservation _ _ _ _ H3) as [front [Hlines Hp]].
  destruct (pops_conservation _ _ _ _ K3) as [popped [Hkept Hn]].
  assert (Hk : kept = rev back0 ++ rev popped).
  { rewrite <- (rev_involutive kept), Hkept, rev_app_distr. reflexivity. }
  pose proof (rev_not_empty _ K2) as Hrev.
  destruct (rev back0) as [|s0 rest] eqn:Eb; [congruence|].
  assert (Hb : back0 = rev rest ++ [s0]).
  { rewrite <- (rev_involutive back0), Eb. reflexivity. }
  assert (Hrp : rp0 < Line.length s0).
  { rewrite Hk in H3. apply (pops_stops _ _ _ _ _ H3). }
  destruct (rev rest) as [|e0 rrest] eqn:Er.
  - intro H. injection H as <- <- <- <- <-.
    assert (rest = []) by (rewrite <- (rev_involutive rest), Er; reflexivity).
    subst rest. exists front, (rev popped). repeat split.
    + right. repeat split. rewrite Hlines, Hk. reflexivity.
    + exact Hp.
    + rewrite path_length_rev. exact Hn.
    + exact Hrp.
    + rewrite Hb in K3. apply (pops_stops _ _ _ _ _ K3).
    + apply (pops_nonneg _ _ _ _ H3).
    + apply (pops_nonneg _ _ _ _ K3).
  - intro H. injection H as <- <- <- <- <-.
    assert (Hrest : rest = rev rrest ++ [e0]).
    { rewrite <- (rev_involutive rest), Er. reflexivity. }
    exists front, (rev popped). repeat split.
    + left. rewrite Hlines, Hk, Hrest, removelast_last.
      cbn [app]. rewrite <- !app_assoc. reflexivity.
    + exact Hp.
    + rewrite path_length_rev. exact Hn.
    + exact Hrp.
    + rewrite Hb in K3. cbn [app] in K3. apply (pops_stops _ _ _ _ _ K3).
    + apply (pops_nonneg _ _ _ _ H3).
    + apply (pops_nonneg _ _ _ _ K3).
Qed.

(** What [tools.remove_offsets] returns, in terms of the trimmed lines. *)
Lemma tools_remove_offsets_inv (path : Route.t) (p_off n_off : Q) (r : Route.t) :
  tools.remove_offsets path p_off n_off = Ok r ->
  exists rp rn s mid e,
    trim_lines path p_off n_off = Ok (rp, rn, s, mid, e)
    /\ ~ Line.length s == 0 /\ ~ Line.length e == 0
    /\ r = Route.mk (PointOnLine.mk s (rp / Line.length s)) mid
                    (PointOnLine.mk e (1 - rn / Line.length e)).
Proof.
  unfold tools.remove_offsets.
  destruct (trim_lines path p_off n_off) as [[[[[rp rn] s] mid] e]|err];
    cbn [bind]; [|discriminate].
  unfold fdiv.
  destruct (Qeq_bool (Line.length s) 0) eqn:Es; cbn [bind]; [discriminate|].
  destruct (Qeq_bool (Line.length e) 0) eqn:Ee; cbn [bind]; [discriminate|].
  cbn [Route.new]. intro H. injection H as <-.
  exists rp, rn, s, mid, e. repeat split; try apply Qeq_bool_false; assumption.
Qed.

(** X10.  The route that the legacy [remove_offsets] returns consists of
    consecutive lines of the given route: the lines of the given route are
    some lines dropped at the front, the line of the returned start point,
    the lines in between, the line of the returned end point and some lines
    dropped at the back; or the returned route starts and ends on one and
    the same line of the given route, with nothing in between. *)
Theorem remove_offsets_keeps_consecutive_lines
        (path : Route.t) (p_off n_off : Q) (r : Route.t)
        (returned : tools.remove_offsets path p_off n_off = Ok r) :
  exists front back,
    Route.lines path
    = front ++ PointOnLine.line (Route.start r)
            :: Route.path_inbetween r ++ PointOnLine.line (Route.end_ r) :: back
    \/ (Route.lines path = front ++ PointOnLine.line (Route.start r) :: back
        /\ PointOnLine.line (Route.end_ r) = PointOnLine.line (Route.start r)
        /\ Route.path_inbetween r = []).
Proof.
  destruct (tools_remove_offsets_inv _ _ _ _ returned)
    as [rp [rn [s [mid [e [Ht [_ [_ ->]]]]]]]].
  destruct (trim_lines_ok _ _ _ _ _ _ _ _ Ht) as [front [back [Hl _]]].
  exists front, back.
  cbn [Route.start Route.end_ Route.path_inbetween PointOnLine.line].
  exact Hl.
Qed.

Lemma remove_offsets_keeps_consecutive_lines_witness :
  exists r,
    tools.remove_offsets route_ab 210 0 = Ok r
    /\ exists front back,
      Route.lines route_ab
      = front ++ PointOnLine.line (Route.start r)
              :: Route.path_inbetween r ++ PointOnLine.line (Route.end_ r) :: back
      \/ (Route.lines route_ab = front ++ PointOnLine.line (Route.start r) :: back
          /\ PointOnLine.line (Route.end_ r) = PointOnLine.line (Route.start r)
          /\ Route.path_inbetween r = []).
Proof.
  eexists. split; [vm_compute; reflexivity|].
  apply (remove_offsets_keeps_consecutive_lines route_ab 210 0).
  vm_compute. reflexivity.
Defined.

(** X11.  When the offsets to remove, added to the offsets of the given
    route, are not negative, the route that the legacy [remove_offsets]
    returns starts at a relative offset in [0, 1) and ends at a relative
    offset in (0, 1]. *)
Theorem remove_offsets_in_range (path : Route.t) (p_off n_off : Q) (r : Route.t)
        (returned : tools.remove_offsets path p_off n_off = Ok r)
        (p_ok : 0 <= p_off + Route.absolute_start_offset path)
        (n_ok : 0 <= n_off + Route.absolute_end_offset path) :
  (0 <= PointOnLine.relative_offset (Route.start r)
   /\ PointOnLine.relative_offset (Route.start r) < 1)
  /\ (0 < PointOnLine.relative_offset (Route.end_ r)
      /\ PointOnLine.relative_offset (Route.end_ r) <= 1).
Proof.
  destruct (tools_remove_offsets_inv _ _ _ _ returned)
    as [rp [rn [s [mid [e [Ht [Hs [He ->]]]]]]]].
  destruct (trim_lines_ok _ _ _ _ _ _ _ _ Ht)
    as [front [back [_ [_ [_ [Hrp [Hrn [Hp0 Hn0]]]]]]]].
  specialize (Hp0 p_ok). specialize (Hn0 n_ok).
  cbn [Route.start Route.end_ PointOnLine.relative_offset].
  assert (Hls : 0 < Line.length s) by lra.
  assert (Hle : 0 < Line.length e) by lra.
  assert (H1 : 0 <= rp / Line.length s) by (apply Qle_shift_div_l; lra).
  assert (H2 : rp / Line.length s < 1) by (apply Qlt_shift_div_r; lra).
  assert (H3 : 0 <= rn / Line.length e) by (apply Qle_shift_div_l; lra).
  assert (H4 : rn / Line.length e < 1) by (apply Qlt_shift_div_r; lra).
  repeat split; lra.
Qed.

Lemma remove_offsets_in_range_witness :
  exists r,
    tools.remove_offsets route_ab 210 20 = Ok r
    /\ (0 <= PointOnLine.relative_offset (Route.start r)
        /\ PointOnLine.relative_offset (Route.start r) < 1)
    /\ (0 < PointOnLine.relative_offset (Route.end_ r)
        /\ PointOnLine.relative_offset (Route.end_ r) <= 1).
Proof.
  eexists. split; [vm_compute; reflexivity|].
  apply (remove_offsets_in_range route_ab 210 20).
  - vm_compute. reflexivity.
  - vm_compute. discriminate.
  - vm_compute. discriminate.
Defined.

(** ** More on the candidate bearing and the line decoder *)

(** X18.  On a line of exactly two coordinates the bearing of a candidate is
    measured towards the end of the line (its start for the last LRP): it
    depends neither on the bearing distance nor on the LRP. *)
Theorem compute_bearing_two_points
        (lrp lrp' : LocationReferencePoint) (candidate : PointOnLine.t)
        (is_last_lrp : bool) (bear_dist bear_dist' : Q) (geo_tool : GeoTool)
        (a b : Coordinates)
        (two : Line.coordinates (PointOnLine.line candidate) = [a; b]) :
  compute_bearing lrp candidate is_last_lrp bear_dist geo_tool
  = compute_bearing lrp' candidate is_last_lrp bear_dist' geo_tool
  /\ compute_bearing lrp candidate is_last_lrp bear_dist geo_tool
     = (origin <- gt_interpolate geo_tool [a; b]
                                 (PointOnLine.distance_from_start candidate) ;;
        Ok (fmod (degrees (gt_bearing geo_tool origin
                                      (if is_last_lrp then a else b))) 360)).
Proof.
  unfold compute_bearing. rewrite compute_bearing_guard, two.
  cbn [List.length Nat.eqb].
  split; [reflexivity|].
  destruct (gt_interpolate geo_tool [a; b]
                           (PointOnLine.distance_from_start candidate));
    cbn [bind]; [|reflexivity].
  destruct is_last_lrp; reflexivity.
Qed.

Lemma compute_bearing_two_points_witness :
  compute_bearing lrp_a (PointOnLine.mk road_b (1 / 2)) false 20 Grid.tool
  = compute_bearing lrp_a (PointOnLine.mk road_b (1 / 2)) false 50 Grid.tool.
Proof.
  apply (compute_bearing_two_points lrp_a lrp_a (PointOnLine.mk road_b (1 / 2))
                                    false 20 50 Grid.tool (pt 0 200) (pt 0 300)).
  reflexivity.
Defined.

(** X19.  [decode_line] on a reference without points raises [IndexError]
    before any candidate is nominated; an error raised while nominating the
    candidates of the first LRP is passed on; and when the first LRP has
    candidates, the result is [build_line_location] applied to the routes
    that [match_tail] finds for the remaining LRPs. *)
Theorem decode_line_pipeline
        (MapReader Config DecoderObserver Candidate LineLocation : Type)
        (lrp_str : LocationReferencePoint -> string)
        (nominate_candidates :
           LocationReferencePoint -> MapReader -> Config ->
           option DecoderObserver -> bool -> GeoTool -> result (list Candidate))
        (match_tail :
           LocationReferencePoint -> list Candidate ->
           list LocationReferencePoint -> MapReader -> Config ->
           option DecoderObserver -> GeoTool -> result (list Route.t))
        (build_line_location :
           list Route.t -> LineLocationReference -> GeoTool -> result LineLocation)
        (reference : LineLocationReference) (reader : MapReader) (config : Config)
        (observer : option DecoderObserver) (geo_tool : GeoTool) :
  (points reference = [] ->
   decode_line lrp_str nominate_candidates match_tail build_line_location
               reference reader config observer geo_tool
   = Raise IndexError)
  /\ (forall first_lrp rest e,
         points reference = first_lrp :: rest ->
         nominate_candidates first_lrp reader config observer false geo_tool
         = Raise e ->
         decode_line lrp_str nominate_candidates match_tail build_line_location
                     reference reader config observer geo_tool
         = Raise e)
  /\ (forall first_lrp rest c cs,
         points reference = first_lrp :: rest ->
         nominate_candidates first_lrp reader config observer false geo_tool
         = Ok (c :: cs) ->
         decode_line lrp_str nominate_candidates match_tail build_line_location
                     reference reader config observer geo_tool
         = (parts <- match_tail first_lrp (c :: cs) rest reader config observer
                                geo_tool ;;
            build_line_location parts reference geo_tool)).
Proof.
  unfold decode_line, dereference_path. repeat split.
  - intros ->. reflexivity.
  - intros first_lrp rest e -> H. cbn [first_item bind]. rewrite H. reflexivity.
  - intros first_lrp rest c cs -> H. cbn [first_item bind]. rewrite H.
    reflexivity.
Qed.

Lemma decode_line_pipeline_witness :
  decode_line (Candidate := unit) (LineLocation := unit)
              (fun _ => "lrp"%string)
              (fun _ (_ : unit) (_ : unit) (_ : option unit) _ _ => Ok [tt])
              (fun _ _ _ _ _ _ _ => Ok [])
              (fun _ _ _ => Ok tt)
              (mkReference [] 0 0) tt tt None Grid.tool
  = Raise IndexError.
Proof.
  apply (decode_line_pipeline
           unit unit unit unit unit
           (fun _ => "lrp"%string)
           (fun _ _ _ _ _ _ => Ok [tt])
           (fun _ _ _ _ _ _ _ => Ok [])
           (fun _ _ _ => Ok tt)
           (mkReference [] 0 0) tt tt None Grid.tool).
  reflexivity.
Defined.
